(** * A verified model of the [@aminnairi/validation] engine

    The development embeds [sources/index.ts]: the JavaScript values the
    rules inspect, the regular expressions of the pattern rules, the rule
    catalogue, and [createValidator] with its [initialValidation] template
    and its asynchronous [validate] loop. *)

From Stdlib Require Import ZArith NArith List Bool Ascii String Lia.
From Stdlib Require Import Floats.SpecFloat.
From stdpp Require Import base option list gmap strings.

Local Open Scope string_scope.
Local Open Scope list_scope.

(** ** JavaScript values *)

Module JS.

(** A JavaScript string is a sequence of UTF-16 code units. *)
Abbreviation jsstring := (list N).

Definition code_units (s : string) : jsstring :=
  map N_of_ascii (list_ascii_of_string s).

(** A JavaScript number is an IEEE 754 binary64 value. *)
Abbreviation number := spec_float.

Definition number_of_Z (z : Z) : number := binary_normalize 53 1024 z 0 false.

(** The values an [unknown] can hold. Objects (functions included) and
    symbols are known by their identity only. *)
Inductive Value :=
| VUndefined
| VNull
| VBoolean (b : bool)
| VNumber (n : number)
| VBigInt (z : Z)
| VString (s : jsstring)
| VSymbol (id : positive)
| VObject (ref : positive).

(** [typeof value === "number"] and [typeof value === "string"]. *)
Definition is_number (v : Value) : bool :=
  match v with VNumber _ => true | _ => false end.

Definition is_string (v : Value) : bool :=
  match v with VString _ => true | _ => false end.

(** [a === b] on numbers: NaN differs from everything, itself included, and
    the two zeros are equal. *)
Definition number_equal (a b : number) : bool := SFeqb a b.

(** [Number.isInteger(n)]: [n] is finite and has no fractional part. A
    finite number is [m * 2 ^ e]. *)
Definition number_is_integer (n : number) : bool :=
  match n with
  | S754_zero _ => true
  | S754_finite _ m e => (0 <=? e)%Z || (Z.pos m mod 2 ^ (- e) =? 0)%Z
  | S754_infinity _ | S754_nan => false
  end.

Definition jsstring_eqb (a b : jsstring) : bool := bool_decide (a = b).

(** [a === b]: values of different types are never equal. *)
Definition strict_equal (a b : Value) : bool :=
  match a, b with
  | VUndefined, VUndefined => true
  | VNull, VNull => true
  | VBoolean x, VBoolean y => Bool.eqb x y
  | VNumber x, VNumber y => number_equal x y
  | VBigInt x, VBigInt y => Z.eqb x y
  | VString x, VString y => jsstring_eqb x y
  | VSymbol x, VSymbol y => Pos.eqb x y
  | VObject x, VObject y => Pos.eqb x y
  | _, _ => false
  end.

(** A target object, seen through [target[name]]: the properties a lookup
    can reach. A lookup of a name that is not there yields [undefined]. *)
Definition get (target : gmap string Value) (name : string) : Value :=
  default VUndefined (target !! name).

End JS.
Export JS.

(** ** Regular expressions *)

Module Regex.

(** The fragment of the pattern language that the source's two literals
    use. A class is a list of inclusive code-unit ranges, possibly
    negated. [And] is the conjunction that a lookahead at the start of an
    anchored pattern amounts to, and [Never] is the pattern without any
    match, which only derivatives produce. *)
Inductive regex :=
| Never
| Empty
| Class (negated : bool) (ranges : list (N * N))
| Seq (r1 r2 : regex)
| Alt (r1 r2 : regex)
| Star (r : regex)
| And (r1 r2 : regex).

Definition in_ranges (c : N) (ranges : list (N * N)) : bool :=
  existsb (fun '(lo, hi) => (lo <=? c)%N && (c <=? hi)%N) ranges.

Definition class_mem (negated : bool) (ranges : list (N * N)) (c : N) : bool :=
  xorb negated (in_ranges c ranges).

(** [\xNN] *)
Definition Char (c : N) : regex := Class false [(c, c)].

(** [r+] *)
Definition Plus (r : regex) : regex := Seq r (Star r).

(** [r{n,}] *)
Fixpoint AtLeast (n : nat) (r : regex) : regex :=
  match n with
  | O => Star r
  | S k => Seq r (AtLeast k r)
  end.

(** [.] without the [s] flag: any code unit but a line terminator. *)
Definition Dot : regex :=
  Class true [(0x0a, 0x0a); (0x0d, 0x0d); (0x2028, 0x2029)]%N.

(** Any code unit at all. *)
Definition AnyUnit : regex := Class true [].

(** [\w] *)
Definition WordChar : regex :=
  Class false [(0x41, 0x5a); (0x61, 0x7a); (0x30, 0x39); (0x5f, 0x5f)]%N.

(** [(?=r)rest] at the start of a pattern that ends in [$]: some prefix of
    the input matches [r], and the input matches [rest]. *)
Definition Lookahead (r rest : regex) : regex :=
  And (Seq r (Star AnyUnit)) rest.

Fixpoint nullable (r : regex) : bool :=
  match r with
  | Never => false
  | Empty => true
  | Class _ _ => false
  | Seq a b => nullable a && nullable b
  | Alt a b => nullable a || nullable b
  | Star _ => true
  | And a b => nullable a && nullable b
  end.

(** Constructors that absorb [Never] and [Empty], to keep derivatives
    small. *)
Definition seq' (a b : regex) : regex :=
  match a, b with
  | Never, _ => Never
  | _, Never => Never
  | Empty, _ => b
  | _, _ => Seq a b
  end.

Definition alt' (a b : regex) : regex :=
  match a, b with
  | Never, _ => b
  | _, Never => a
  | _, _ => Alt a b
  end.

Definition and' (a b : regex) : regex :=
  match a, b with
  | Never, _ => Never
  | _, Never => Never
  | _, _ => And a b
  end.

(** The derivative of [r] by the code unit [c]: what remains to be matched
    once [c] has been read. *)
Fixpoint deriv (c : N) (r : regex) : regex :=
  match r with
  | Never => Never
  | Empty => Never
  | Class negated ranges => if class_mem negated ranges c then Empty else Never
  | Seq a b =>
      alt' (seq' (deriv c a) b) (if nullable a then deriv c b else Never)
  | Alt a b => alt' (deriv c a) (deriv c b)
  | Star a => seq' (deriv c a) (Star a)
  | And a b => and' (deriv c a) (deriv c b)
  end.

(** [/^r$/.test(s)]: the whole of [s] matches [r]. A regular expression
    literal has no flags here, so [test] keeps no state between calls. *)
Definition test_anchored (r : regex) (s : jsstring) : bool :=
  nullable (fold_left (fun r c => deriv c r) s r).

(** What it means for a string to match, independently of derivatives. *)
Inductive matches : regex -> jsstring -> Prop :=
| m_empty : matches Empty []
| m_class negated ranges c :
    class_mem negated ranges c = true -> matches (Class negated ranges) [c]
| m_seq a b s t : matches a s -> matches b t -> matches (Seq a b) (s ++ t)
| m_alt_l a b s : matches a s -> matches (Alt a b) s
| m_alt_r a b s : matches b s -> matches (Alt a b) s
| m_star_nil a : matches (Star a) []
| m_star_cons a s t :
    matches a s -> matches (Star a) t -> matches (Star a) (s ++ t)
| m_and a b s : matches a s -> matches b s -> matches (And a b) s.

End Regex.
Export Regex.

(** ** The two pattern literals of the source *)

Module Patterns.

Local Open Scope N_scope.

(** [[^\x00-\x20\x22\x28\x29\x2c\x2e\x3a-\x3c\x3e\x40\x5b-\x5d\x7f-\xff]+] *)
Definition atom : regex :=
  Plus (Class true
    [(0x00, 0x20); (0x22, 0x22); (0x28, 0x28); (0x29, 0x29); (0x2c, 0x2c);
     (0x2e, 0x2e); (0x3a, 0x3c); (0x3e, 0x3e); (0x40, 0x40); (0x5b, 0x5d);
     (0x7f, 0xff)]).

(** [\x22([^\x0d\x22\x5c\x80-\xff]|\x5c[\x00-\x7f])*\x22] *)
Definition quoted_string : regex :=
  Seq (Char 0x22)
   (Seq (Star (Alt (Class true [(0x0d, 0x0d); (0x22, 0x22); (0x5c, 0x5c);
                                (0x80, 0xff)])
                   (Seq (Char 0x5c) (Class false [(0x00, 0x7f)]))))
        (Char 0x22)).

(** [\x5b([^\x0d\x5b-\x5d\x80-\xff]|\x5c[\x00-\x7f])*\x5d] *)
Definition domain_literal : regex :=
  Seq (Char 0x5b)
   (Seq (Star (Alt (Class true [(0x0d, 0x0d); (0x5b, 0x5d); (0x80, 0xff)])
                   (Seq (Char 0x5c) (Class false [(0x00, 0x7f)]))))
        (Char 0x5d)).

Definition word : regex := Alt atom quoted_string.

Definition sub_domain : regex := Alt atom domain_literal.

(** The literal of [isEmail], between its [^] and its [$]:
    [word(\x2e word)*\x40 sub_domain(\x2e sub_domain)*(\.\w{2,})+]. *)
Definition email_regex : regex :=
  Seq word
   (Seq (Star (Seq (Char 0x2e) word))
    (Seq (Char 0x40)
     (Seq sub_domain
      (Seq (Star (Seq (Char 0x2e) sub_domain))
           (Plus (Seq (Char 0x2e) (AtLeast 2 WordChar))))))).

(** The pattern of [isPassword], between its [^] and its [$]:
    [(?=.*[0-9])(?=.*[a-z])(?=.*[A-Z])(?=.*[^0-9a-zA-Z]).{8,}]. The text of
    the pattern does not mention [minimum]. *)
Definition password_regex : regex :=
  Lookahead (Seq (Star Dot) (Class false [(0x30, 0x39)]))
   (Lookahead (Seq (Star Dot) (Class false [(0x61, 0x7a)]))
    (Lookahead (Seq (Star Dot) (Class false [(0x41, 0x5a)]))
     (Lookahead
        (Seq (Star Dot)
             (Class true [(0x30, 0x39); (0x61, 0x7a); (0x41, 0x5a)]))
        (AtLeast 8 Dot)))).

End Patterns.
Export Patterns.

(** ** Asynchronous computations *)

(** How a promise settles: it resolves with a value or rejects with the
    value that was thrown. *)
Inductive Outcome (A : Type) :=
| Resolved (a : A)
| Rejected (reason : Value).
Arguments Resolved {A} a.
Arguments Rejected {A} reason.

Section Engine.

(** Whatever lies outside the engine and a rule may read or change while it
    is awaited: a remote service, the [lastIndex] of a regular expression
    object. The engine never looks at it. *)
Context {W : Type}.

(** An awaited computation: run from a state of the world, it settles and
    leaves a state of the world. *)
Definition Async (A : Type) : Type := W -> Outcome A * W.

Definition ret {A : Type} (a : A) : Async A := fun w => (Resolved a, w).

Definition throw {A : Type} (reason : Value) : Async A :=
  fun w => (Rejected reason, w).

(** [await m] followed by [k]: a rejection of [m] skips [k]. *)
Definition bind {A B : Type} (m : Async A) (k : A -> Async B) : Async B :=
  fun w =>
    match m w with
    | (Resolved a, w') => k a w'
    | (Rejected reason, w') => (Rejected reason, w')
    end.

(** [try { m } catch (error) { handler }] *)
Definition try_catch {A : Type} (m : Async A) (handler : Value -> Async A)
  : Async A :=
  fun w =>
    match m w with
    | (Resolved a, w') => (Resolved a, w')
    | (Rejected reason, w') => handler reason w'
    end.

Notation "'await' x <- m ; k" := (bind m (fun x => k))
  (at level 10, x name, m at level 100, k at level 200,
   format "'[v' 'await'  x  <-  m ; '/' k ']'").

(** ** Rules *)

Record Rule := { isValid : gmap string Value -> string -> Value -> Async bool }.

(** A [RegExp] object handed to a rule by the caller: its [test] may throw,
    and with the [g] or [y] flag it moves [lastIndex]. *)
Record RegExp := { test : jsstring -> Async bool }.

Definition isNumber : Rule :=
  {| isValid := fun target property value => ret (is_number value) |}.

Definition isNumberEqualTo (expectedValue : number) : Rule :=
  {| isValid := fun target property value =>
       ret (match value with
            | VNumber n => number_equal expectedValue n
            | _ => false
            end) |}.

Definition isNumberNotEqualTo (expectedValue : number) : Rule :=
  {| isValid := fun target property value =>
       ret (match value with
            | VNumber n => negb (number_equal expectedValue n)
            | _ => false
            end) |}.

Definition isNumberGreaterThan (expectedValue : number) : Rule :=
  {| isValid := fun target property value =>
       ret (match value with
            | VNumber n => SFltb expectedValue n
            | _ => false
            end) |}.

Definition isNumberLowerThan (expectedValue : number) : Rule :=
  {| isValid := fun target property value =>
       ret (match value with
            | VNumber n => SFltb n expectedValue
            | _ => false
            end) |}.

Definition isInteger : Rule :=
  {| isValid := fun target property value =>
       ret (match value with
            | VNumber n => number_is_integer n
            | _ => false
            end) |}.

Definition isIntegerEqualTo (expectedValue : number) : Rule :=
  {| isValid := fun target property value =>
       ret (match value with
            | VNumber n => number_is_integer n && number_equal expectedValue n
            | _ => false
            end) |}.

Definition isIntegerNotEqualTo (expectedValue : number) : Rule :=
  {| isValid := fun target property value =>
       ret (match value with
            | VNumber n =>
                number_is_integer n && negb (number_equal expectedValue n)
            | _ => false
            end) |}.

Definition isIntegerGreaterThan (expectedValue : number) : Rule :=
  {| isValid := fun target property value =>
       ret (match value with
            | VNumber n => number_is_integer n && SFltb expectedValue n
            | _ => false
            end) |}.

Definition isIntegerLowerThan (expectedValue : number) : Rule :=
  {| isValid := fun target property value =>
       ret (match value with
            | VNumber n => number_is_integer n && SFltb n expectedValue
            | _ => false
            end) |}.

Definition isEqualToProperty (otherProperty : string) : Rule :=
  {| isValid := fun target property value =>
       ret (strict_equal (get target otherProperty) value) |}.

Definition isNotEqualToProperty (otherProperty : string) : Rule :=
  {| isValid := fun target property value =>
       ret (negb (strict_equal (get target otherProperty) value)) |}.

Definition isOneOf (enumeration : list Value) : Rule :=
  {| isValid := fun target property value =>
       ret (existsb (fun enumerationValue =>
                       strict_equal enumerationValue value) enumeration) |}.

Definition isNotOneOf (enumeration : list Value) : Rule :=
  {| isValid := fun target property value =>
       ret (forallb (fun enumerationValue =>
                       negb (strict_equal enumerationValue value))
                    enumeration) |}.

Definition isEmail : Rule :=
  {| isValid := fun target property value =>
       ret (match value with
            | VString s => test_anchored email_regex s
            | _ => false
            end) |}.

(** [minimum] is received and never read. *)
Definition isPassword (minimum : number) : Rule :=
  {| isValid := fun target property value =>
       ret (match value with
            | VString s => test_anchored password_regex s
            | _ => false
            end) |}.

(** [isPassword()]: the parameter takes its default, 8. *)
Definition isPassword_default : Rule := isPassword (number_of_Z 8).

Definition doesMatch (regex : RegExp) : Rule :=
  {| isValid := fun target property value =>
       try_catch
         (match value with
          | VString s => test regex s
          | _ => ret false
          end)
         (fun error => ret false) |}.

Definition doesNotMatch (regex : RegExp) : Rule :=
  {| isValid := fun target property value =>
       try_catch
         (match value with
          | VString s => await matched <- test regex s; ret (negb matched)
          | _ => ret false
          end)
         (fun error => ret false) |}.

(** ** The engine *)

(** A report holds, under each name, a boolean or an object of booleans. *)
Inductive Field :=
| FBoolean (b : bool)
| FObject (o : gmap string bool).

(** A schema, as [Object.entries] and [for ... in] list it. *)
Abbreviation Schema := (list (string * list (string * Rule))).

(** [Object.fromEntries]: a later entry replaces an earlier one of the same
    key. *)
Definition fromEntries {V : Type} (entries : list (string * V))
  : gmap string V :=
  fold_left (fun object '(key, value) => <[key := value]> object) entries ∅.

(** [{...x}] where [x] is what a lookup in a report gave: only an object
    has properties to copy. *)
Definition spread (x : option Field) : gmap string bool :=
  match x with
  | Some (FObject o) => o
  | _ => ∅
  end.

(** [{...validations, [property]: {...validations[property], [name]: b}}] *)
Definition set_in_property (validations : gmap string Field)
    (property name : string) (b : bool) : gmap string Field :=
  <[property := FObject (<[name := b]> (spread (validations !! property)))]>
    validations.

(** The inner loop, [for (const ruleName in rules)]. [isValid'] is the
    source's variable [isValid]. *)
Fixpoint validate_rules (target : gmap string Value) (property : string)
    (value : Value) (rules : list (string * Rule))
    (validations : gmap string Field) (isValid' isValidProperty : bool)
  : Async (gmap string Field * bool * bool) :=
  match rules with
  | [] => ret (validations, isValid', isValidProperty)
  | (ruleName, rule) :: rest =>
      await passed <- isValid rule target property value;
      if passed
      then validate_rules target property value rest
             (set_in_property validations property ruleName true)
             isValid' isValidProperty
      else validate_rules target property value rest
             (set_in_property validations property ruleName false)
             false false
  end.

(** The outer loop, [for (const property in schema)]. *)
Fixpoint validate_properties (target : gmap string Value)
    (schema : Schema) (validations : gmap string Field) (isValid' : bool)
  : Async (gmap string Field * bool) :=
  match schema with
  | [] => ret (validations, isValid')
  | (property, rules) :: rest =>
      let value := get target property in
      await after <-
        validate_rules target property value rules validations isValid' true;
      let '(validations, isValid', isValidProperty) := after in
      validate_properties target rest
        (set_in_property validations property "isValid" isValidProperty)
        isValid'
  end.

Record Validator := {
  initialValidation : gmap string Field;
  validate : gmap string Value -> Async (gmap string Field)
}.

(** The value of [initialValidation]. *)
Definition seed_initial (schema : Schema) : gmap string Field :=
  <["isValid" := FBoolean false]>
    (fromEntries
       (map (fun '(property, rules) =>
               (property,
                FObject
                  (fromEntries
                     (map (fun '(ruleName, _) => (ruleName, false))
                          (rules : list (string * Rule))))))
            schema)).

(** The value that [validate] gives [validations] before its loops. *)
Definition seeded (schema : Schema) : gmap string Field :=
  fromEntries
    (map (fun '(property, rules) =>
            (property,
             FObject
               (<["isValid" := false]>
                  (fromEntries
                     (map (fun '(ruleName, _) => (ruleName, false))
                          (rules : list (string * Rule)))))))
         schema).

Definition createValidator (schema : Schema) : Validator :=
  {| initialValidation := seed_initial schema;
     validate := fun target =>
       let validations := seeded schema in
       await after <- validate_properties target schema validations true;
       let '(validations, isValid') := after in
       ret (<["isValid" := FBoolean isValid']> validations) |}.

(** ** The pass, taken apart

    [validate] interleaves awaiting the rules with rebuilding the report.
    The two definitions below only await the rules, in the order of the
    schema, and keep what each resolved to; the next ones only rebuild the
    report from such a table. *)

Fixpoint eval_rules (target : gmap string Value) (property : string)
    (value : Value) (rules : list (string * Rule))
  : Async (list (string * bool)) :=
  match rules with
  | [] => ret []
  | (ruleName, rule) :: rest =>
      await passed <- isValid rule target property value;
      await others <- eval_rules target property value rest;
      ret ((ruleName, passed) :: others)
  end.

Fixpoint eval_schema (target : gmap string Value) (schema : Schema)
  : Async (list (string * list (string * bool))) :=
  match schema with
  | [] => ret []
  | (property, rules) :: rest =>
      await outcomes <-
        eval_rules target property (get target property) rules;
      await others <- eval_schema target rest;
      ret ((property, outcomes) :: others)
  end.

Definition all_passed (outcomes : list (string * bool)) : bool :=
  forallb snd outcomes.

Definition record_rules (property : string) (outcomes : list (string * bool))
    (validations : gmap string Field) : gmap string Field :=
  fold_left (fun validations '(ruleName, passed) =>
               set_in_property validations property ruleName passed)
            outcomes validations.

(** [{...o, [k1]: v1, ..., [kn]: vn}] *)
Definition insert_all {V : Type} (entries : list (string * V))
    (o : gmap string V) : gmap string V :=
  fold_left (fun object '(key, value) => <[key := value]> object) entries o.

Definition record_property (validations : gmap string Field)
    (entry : string * list (string * bool)) : gmap string Field :=
  set_in_property (record_rules entry.1 entry.2 validations)
    entry.1 "isValid" (all_passed entry.2).

Definition record_schema (table : list (string * list (string * bool)))
    (validations : gmap string Field) : gmap string Field :=
  fold_left record_property table validations.

(** The rules of a schema, each with the property it stands under. *)
Definition rule_of (schema : Schema) (property ruleName : string)
    (rule : Rule) : Prop :=
  exists rules, In (property, rules) schema /\ In (ruleName, rule) rules.

(** A rule that settles the same way whatever the state of the world, and
    leaves the world as it found it. *)
Definition deterministic (rule : Rule) : Prop :=
  exists verdict : gmap string Value -> string -> Value -> Outcome bool,
    forall target property value w,
      isValid rule target property value w
      = (verdict target property value, w).

(** A rule that resolves, never rejects, on the given call. *)
Definition resolves (rule : Rule) (target : gmap string Value)
    (property : string) (value : Value) : Prop :=
  forall w, exists passed w',
    isValid rule target property value w = (Resolved passed, w').

(** A rule that rejects on the given call. *)
Definition rejects (rule : Rule) (target : gmap string Value)
    (property : string) (value : Value) : Prop :=
  forall w, exists reason w',
    isValid rule target property value w = (Rejected reason, w').

(** An outcome of a rule, next to the rule it came from. *)
Definition verdict_of (target : gmap string Value) (property : string)
    (value : Value) (entry : string * Rule) (outcome : string * bool) : Prop :=
  entry.1 = outcome.1 /\
  exists w0 w1,
    isValid entry.2 target property value w0 = (Resolved outcome.2, w1).

End Engine.

Arguments Rule : clear implicits.
Arguments RegExp : clear implicits.
Arguments Validator : clear implicits.
Arguments Async : clear implicits.

(** ** Reading a report *)

(** The names of the entries of an object. *)
Definition keys {V : Type} (entries : list (string * V)) : list string :=
  map fst entries.

(** A list of entries is what [Object.entries] gives for some object when
    no key comes twice; a schema, when that holds at both levels. *)
Definition schema_wf {W : Type} (schema : list (string * list (string * Rule W)))
  : Prop :=
  NoDup (keys schema) /\ Forall (fun entry => NoDup (keys entry.2)) schema.

(** [report.isValid], when it is a boolean. *)
Definition report_isValid (report : gmap string Field) : option bool :=
  match report !! "isValid" with
  | Some (FBoolean b) => Some b
  | _ => None
  end.

(** [report[property]], when it is an object. *)
Definition property_report (report : gmap string Field) (property : string)
  : option (gmap string bool) :=
  match report !! property with
  | Some (FObject o) => Some o
  | _ => None
  end.

(** [report[property].isValid] and [report[property][ruleName]]; [None]
    stands for [undefined]. *)
Definition property_isValid (report : gmap string Field) (property : string)
  : option bool :=
  match property_report report property with
  | Some o => o !! "isValid"
  | None => None
  end.

Definition rule_result (report : gmap string Field)
    (property ruleName : string) : option bool :=
  match property_report report property with
  | Some o => o !! ruleName
  | None => None
  end.

(** The conjunction of booleans that must all be there. *)
Fixpoint and_all (l : list (option bool)) : option bool :=
  match l with
  | [] => Some true
  | x :: rest =>
      match x, and_all rest with
      | Some a, Some b => Some (a && b)
      | _, _ => None
      end
  end.

(** The two aggregation equations of a report for a schema, every boolean
    they mention being there. *)
Definition aggregates {W : Type} (schema : list (string * list (string * Rule W)))
    (report : gmap string Field) : Prop :=
  (is_Some (report_isValid report) /\
   report_isValid report
   = and_all (map (property_isValid report) (keys schema))) /\
  forall property rules, In (property, rules) schema ->
    is_Some (property_isValid report property) /\
    property_isValid report property
    = and_all (map (rule_result report property) (keys rules)).

(** ** The password rule, in the words of the specification *)

Definition code_in (lo hi c : N) : bool := ((lo <=? c) && (c <=? hi))%N.

Definition is_digit (c : N) : bool := code_in 0x30 0x39 c.
Definition is_lowercase (c : N) : bool := code_in 0x61 0x7a c.
Definition is_uppercase (c : N) : bool := code_in 0x41 0x5a c.
Definition is_symbol (c : N) : bool :=
  negb (is_digit c || is_lowercase c || is_uppercase c).

(** The code units that [.] does not match. *)
Definition is_line_terminator (c : N) : bool :=
  code_in 0x0a 0x0a c || code_in 0x0d 0x0d c || code_in 0x2028 0x2029 c.

(** Length at least [minimum], and one lowercase letter, one uppercase
    letter, one digit and one symbol that is neither letter nor digit. *)
Definition password_spec (minimum : nat) (v : jsstring) : bool :=
  (minimum <=? length v)%nat
  && existsb is_lowercase v && existsb is_uppercase v
  && existsb is_digit v && existsb is_symbol v.

(** ** Notions for the properties of the engine and of the catalogue *)

(** Every rule of the schema resolves, on the target, to the boolean that
    [verdict] gives for its property and its name, whatever the state of
    the world it is called in; it may change the world. *)
Definition settles_to {W : Type} (schema : list (string * list (string * Rule W)))
    (target : gmap string Value) (verdict : string -> string -> bool) : Prop :=
  forall property ruleName rule, rule_of schema property ruleName rule ->
    forall w, exists w',
      isValid rule target property (get target property) w
      = (Resolved (verdict property ruleName), w').

(** The outcomes of a pass over the schema, read off [verdict]. *)
Definition verdict_table {W : Type} (verdict : string -> string -> bool)
    (schema : list (string * list (string * Rule W)))
  : list (string * list (string * bool)) :=
  map (fun entry =>
         (entry.1, map (fun rule => (rule.1, verdict entry.1 rule.1)) entry.2))
      schema.

(** The conjunction of the verdicts of all the rules of the schema. *)
Definition all_verdicts {W : Type} (verdict : string -> string -> bool)
    (schema : list (string * list (string * Rule W))) : bool :=
  forallb (fun entry => forallb (fun rule => verdict entry.1 rule.1) entry.2)
          schema.



(** A rule that does not look at the target, only at the name and the
    value it is handed (and at the world). *)
Definition ignores_target {W : Type} (rule : Rule W) : Prop :=
  forall target target' property value w,
    isValid rule target property value w
    = isValid rule target' property value w.

(** A call of a rule, as a rule can observe it: the name the rule stands
    under in the schema, and the property name and the value it received. *)
Abbreviation Call := (string * string * Value)%type.






(** NaN, the number that is equal to nothing. *)
Definition is_nan (n : number) : bool :=
  match n with S754_nan => true | _ => false end.

Definition is_nan_value (v : Value) : bool :=
  match v with VNumber n => is_nan n | _ => false end.

(** The code units of [\w]. *)
Definition is_word_char (c : N) : bool :=
  is_uppercase c || is_lowercase c || is_digit c || code_in 0x5f 0x5f c.

(** The ranges that the class of [atom] excludes: controls and space, the
    specials (double quote, parentheses, comma, dot, colon, semicolon,
    angle brackets, at sign, square brackets, backslash) and everything
    from [\x7f] to [\xff]. *)
Definition atom_excluded : list (N * N) :=
  [(0x00, 0x20); (0x22, 0x22); (0x28, 0x28); (0x29, 0x29); (0x2c, 0x2c);
   (0x2e, 0x2e); (0x3a, 0x3c); (0x3e, 0x3e); (0x40, 0x40); (0x5b, 0x5d);
   (0x7f, 0xff)]%N.

Definition is_atom_char (c : N) : bool := negb (in_ranges c atom_excluded).

(** ** Schemas and targets to try the engine on *)

Module Examples.

(** A rule whose remote check fails: it rejects with a message. *)
Definition unreachable : Rule unit :=
  {| isValid := fun target property value =>
       throw (VString (code_units "unreachable")) |}.

Definition sign_up : list (string * list (string * Rule unit)) :=
  [("email", [("isValidEmail", isEmail)]);
   ("answer", [("isValidAnswer", isNumberEqualTo (number_of_Z 42))]);
   ("nickname", [])].

Definition remote : list (string * list (string * Rule unit)) :=
  [("email", [("isValidEmail", isEmail)]);
   ("login", [("isFree", unreachable)])].

(** A schema with a property that bears the name of the report's own
    aggregate. *)
Definition reserved : list (string * list (string * Rule unit)) :=
  [("isValid", [("isNumeric", isNumber)])].

Definition answer_only : gmap string Value :=
  {[ "answer" := VNumber (number_of_Z 42) ]}.

(** What [validate] resolves with for [sign_up] on [answer_only]. *)
Definition sign_up_report : gmap string Field :=
  {[ "email" := FObject {[ "isValidEmail" := false; "isValid" := false ]};
     "answer" := FObject {[ "isValidAnswer" := true; "isValid" := true ]};
     "nickname" := FObject {[ "isValid" := true ]};
     "isValid" := FBoolean false ]}.

End Examples.

(** ** Schemas with inherited properties *)

(** [createValidator] reads its schema in two ways. It seeds
    [initialValidation] and [validations] from [Object.entries], which
    lists the own enumerable properties; the loops of [validate] go
    through [for ... in], which lists the inherited enumerable properties
    as well. [entries] is what the first gives, at both levels of the
    schema; [enumerated] is what the second gives, each name with
    [schema[property]] and [rules[ruleName]]. *)
Record SchemaObject (W : Type) := {
  entries : list (string * list (string * Rule W));
  enumerated : list (string * list (string * Rule W))
}.
Arguments entries {W} _.
Arguments enumerated {W} _.

(** [createValidator], on a schema given by both of its readings. *)
Definition createValidatorOf {W : Type} (schema : SchemaObject W)
  : Validator W :=
  {| initialValidation := seed_initial (entries schema);
     validate := fun target =>
       let validations := seeded (entries schema) in
       bind (validate_properties target (enumerated schema) validations true)
            (fun after =>
               let '(validations, isValid') := after in
               ret (<["isValid" := FBoolean isValid']> validations)) |}.

(** A schema whose enumerable properties are all its own, at both levels:
    the two readings agree. [createValidator] is [createValidatorOf] on
    such schemas. *)
Definition own_only {W : Type} (schema : list (string * list (string * Rule W)))
  : SchemaObject W :=
  {| entries := schema; enumerated := schema |}.

(** ** A remote check that fails once *)

Module Outage.

(** The world is whether the remote service is up. *)

(** A rule after which the service is down. *)
Definition goes_down : Rule bool :=
  {| isValid := fun target property value (up : bool) =>
       (Resolved true, false) |}.

(** A rule that asks the service: it resolves while the service is up,
    and rejects when it is down, after which the service is up again. *)
Definition asks_service : Rule bool :=
  {| isValid := fun target property value (up : bool) =>
       if up then (Resolved true, up)
       else (Rejected (VString (code_units "unreachable")), true) |}.

Definition schema : list (string * list (string * Rule bool)) :=
  [("email", [("isValidEmail", isEmail)]);
   ("login", [("isPresent", goes_down);
              ("isFree", asks_service);
              ("isNumeric", isNumber)]);
   ("nickname", [])].

End Outage.

Module Inherited.

(** A schema with one own property, and one more that [for ... in] finds
    on its prototype. *)
Definition schema : SchemaObject unit :=
  {| entries := [("email", [("isValidEmail", isEmail)])];
     enumerated := [("email", [("isValidEmail", isEmail)]);
                    ("inherited", [("isNumeric", isNumber)])] |}.

End Inherited.

Module MoreExamples.

(** What the rules of [Examples.sign_up] resolve to on
    [Examples.answer_only]: the answer is right, the email is not there. *)
Definition sign_up_verdict (property ruleName : string) : bool :=
  String.eqb property "answer".

(** [Examples.sign_up] with its first property last. *)
Definition sign_up_reordered : list (string * list (string * Rule unit)) :=
  [("answer", [("isValidAnswer", isNumberEqualTo (number_of_Z 42))]);
   ("nickname", []);
   ("email", [("isValidEmail", isEmail)])].

(** [Examples.answer_only] with a property that the schema does not
    mention. *)
Definition answer_and_comment : gmap string Value :=
  {[ "answer" := VNumber (number_of_Z 42);
     "comment" := VString (code_units "hello") ]}.

End MoreExamples.

(** * Properties *)

#[local] Set Warnings "-clear-no-such-hyp".

Section Properties.

Context {W : Type}.

Implicit Types (schema : list (string * list (string * Rule W))).
Implicit Types (rules : list (string * Rule W)).
Implicit Types (target : gmap string Value).
Implicit Types (validations report : gmap string Field).
Implicit Types (w : W).

(** ** The matcher decides [matches] *)

Lemma nullable_matches r : nullable r = true <-> matches r [].
Proof.
  split.
  - induction r; simpl; intros Hn; try discriminate.
    + constructor.
    + apply andb_true_iff in Hn as [Ha Hb].
      change (@nil N) with (@nil N ++ []). constructor; auto.
    + apply orb_true_iff in Hn as [Ha|Hb];
        [apply m_alt_l|apply m_alt_r]; auto.
    + constructor.
    + apply andb_true_iff in Hn as [Ha Hb]. constructor; auto.
  - intros Hm. remember [] as s eqn:Hs.
    induction Hm; simpl; try done.
    + apply app_eq_nil in Hs as [-> ->]. rewrite IHHm1, IHHm2; done.
    + rewrite IHHm; done.
    + rewrite IHHm, orb_true_r; done.
    + rewrite IHHm1, IHHm2; done.
Qed.

Lemma never_matches s : ~ matches Never s.
Proof. intros Hm. inversion Hm. Qed.

Lemma empty_matches s : matches Empty s <-> s = [].
Proof.
  split; [intros Hm; by inversion Hm|intros ->; constructor].
Qed.

Lemma seq_matches a b s :
  matches (Seq a b) s <->
  exists s1 s2, s = s1 ++ s2 /\ matches a s1 /\ matches b s2.
Proof.
  split.
  - intros Hm. inversion Hm; subst. eauto.
  - intros (s1 & s2 & -> & Ha & Hb). by constructor.
Qed.

Lemma alt_matches a b s :
  matches (Alt a b) s <-> matches a s \/ matches b s.
Proof.
  split.
  - intros Hm. inversion Hm; subst; auto.
  - intros [Ha|Hb]; [by apply m_alt_l|by apply m_alt_r].
Qed.

Lemma and_matches a b s :
  matches (And a b) s <-> matches a s /\ matches b s.
Proof.
  split.
  - intros Hm. inversion Hm; subst; auto.
  - intros [Ha Hb]. by constructor.
Qed.

Lemma class_matches negated ranges s :
  matches (Class negated ranges) s <->
  exists c, s = [c] /\ class_mem negated ranges c = true.
Proof.
  split.
  - intros Hm. inversion Hm; subst. eauto.
  - intros (c & -> & Hc). by constructor.
Qed.

Lemma seq'_matches a b s : matches (seq' a b) s <-> matches (Seq a b) s.
Proof.
  rewrite seq_matches.
  destruct a; destruct b; simpl; try (by rewrite seq_matches);
    try (split; [by intros ?%never_matches
                |by intros (? & ? & _ & ?%never_matches & _)
                   || by intros (? & ? & _ & _ & ?%never_matches)]);
    (split;
     [ intros Hm; exists [], s; split; [done|]; split; [constructor|done]
     | intros (s1 & s2 & -> & ->%empty_matches & Hb); done ]).
Qed.

Lemma alt'_matches a b s : matches (alt' a b) s <-> matches (Alt a b) s.
Proof.
  rewrite alt_matches.
  destruct a; destruct b; simpl; try (by rewrite alt_matches);
    (split; [tauto|intros [Hm|Hm]; by try apply never_matches in Hm]).
Qed.

Lemma and'_matches a b s : matches (and' a b) s <-> matches (And a b) s.
Proof.
  rewrite and_matches.
  destruct a; destruct b; simpl; try (by rewrite and_matches);
    (split; [by intros ?%never_matches
            |intros [Ha Hb]; by try apply never_matches in Ha;
                              try apply never_matches in Hb]).
Qed.

(** A non-empty match of [r*] starts with a non-empty match of [r]. *)
Lemma star_matches_cons a c s :
  matches (Star a) (c :: s) ->
  exists s1 s2, s = s1 ++ s2 /\ matches a (c :: s1) /\ matches (Star a) s2.
Proof.
  intros Hm. remember (Star a) as r eqn:Hr. remember (c :: s) as u eqn:Hu.
  induction Hm as [| | | | | |b s1 s2 Hb _ Hstar IH|]; try discriminate.
  injection Hr as ->. destruct s1 as [|c1 s1].
  - simpl in Hu. by apply IH.
  - injection Hu as -> <-. eauto.
Qed.

Lemma deriv_matches r : forall c s,
  matches (deriv c r) s <-> matches r (c :: s).
Proof.
  induction r as [| |negated ranges|a IHa b IHb|a IHa b IHb|a IHa|a IHa b IHb];
    intros c s; simpl.
  - split; by intros ?%never_matches.
  - split; [by intros ?%never_matches|intros Hm; inversion Hm].
  - destruct (class_mem negated ranges c) eqn:Hc.
    + rewrite empty_matches. split.
      * intros ->. by constructor.
      * intros Hm. by inversion Hm.
    + split; [by intros ?%never_matches|].
      intros Hm. inversion Hm; subst. congruence.
  - rewrite alt'_matches, alt_matches, seq'_matches, !seq_matches. split.
    + intros [(s1 & s2 & -> & Ha & Hb)|Hb].
      * exists (c :: s1), s2. rewrite <- IHa. done.
      * destruct (nullable a) eqn:Hn; [|by apply never_matches in Hb].
        exists [], (c :: s). rewrite <- IHb, <- nullable_matches. done.
    + intros (s1 & s2 & Hs & Ha & Hb). destruct s1 as [|c1 s1].
      * simpl in Hs. subst s2. right.
        apply nullable_matches in Ha. rewrite Ha. by apply IHb.
      * injection Hs as <- ->. left. exists s1, s2. by rewrite IHa.
  - rewrite alt'_matches, !alt_matches, IHa, IHb. done.
  - rewrite seq'_matches, seq_matches. split.
    + intros (s1 & s2 & -> & Ha & Hstar).
      change (c :: s1 ++ s2) with ((c :: s1) ++ s2).
      constructor; [by apply IHa|done].
    + intros (s1 & s2 & -> & Ha & Hstar)%star_matches_cons.
      exists s1, s2. by rewrite IHa.
  - rewrite and'_matches, !and_matches, IHa, IHb. done.
Qed.

(** The matcher is sound and complete for [matches]. *)
Lemma test_anchored_matches r s : test_anchored r s = true <-> matches r s.
Proof.
  unfold test_anchored. revert r.
  induction s as [|c s IH]; intros r; simpl.
  - apply nullable_matches.
  - rewrite IH. apply deriv_matches.
Qed.

(** ** What the password pattern accepts *)

Lemma star_class_matches negated ranges s :
  matches (Star (Class negated ranges)) s <->
  forallb (class_mem negated ranges) s = true.
Proof.
  split.
  - intros Hm. remember (Star (Class negated ranges)) as r eqn:Hr.
    induction Hm as [| | | | | |a s1 s2 Ha _ Hstar IH|]; try discriminate.
    + done.
    + injection Hr as ->. apply class_matches in Ha as (c & -> & Hc).
      simpl. rewrite Hc. by apply IH.
  - induction s as [|c s IH]; simpl; intros Hall; [constructor|].
    apply andb_true_iff in Hall as [Hc Hall].
    change (c :: s) with ([c] ++ s). constructor; [by constructor|auto].
Qed.

Lemma any_matches s : matches (Star AnyUnit) s.
Proof.
  apply star_class_matches. by induction s.
Qed.

Lemma atleast_class_matches n negated ranges : forall s,
  matches (AtLeast n (Class negated ranges)) s <->
  (n <= length s)%nat /\ forallb (class_mem negated ranges) s = true.
Proof.
  induction n as [|n IH]; intros s; simpl.
  - rewrite star_class_matches. split; [split; [lia|done]|tauto].
  - rewrite seq_matches. split.
    + intros (s1 & s2 & -> & (c & -> & Hc)%class_matches & Hrest%IH).
      simpl. rewrite Hc. split; [lia|tauto].
    + intros [Hlen Hall]. destruct s as [|c s]; simpl in *; [lia|].
      apply andb_true_iff in Hall as [Hc Hall].
      exists [c], s. split; [done|]. split; [by constructor|].
      apply IH. split; [lia|done].
Qed.

Lemma lookahead_matches negated ranges negated' ranges' rest s :
  matches (Lookahead (Seq (Star (Class negated ranges))
                          (Class negated' ranges')) rest) s <->
  (exists s1 c s2,
     s = s1 ++ c :: s2 /\
     forallb (class_mem negated ranges) s1 = true /\
     class_mem negated' ranges' c = true) /\
  matches rest s.
Proof.
  unfold Lookahead. rewrite and_matches, seq_matches.
  split; intros [Hahead Hrest]; (split; [|done]).
  - destruct Hahead as (u & s2 & -> & Hu & _).
    apply seq_matches in Hu
      as (s1 & t & -> & Hs1%star_class_matches & (c & -> & Hc)%class_matches).
    exists s1, c, s2. by rewrite <- app_assoc.
  - destruct Hahead as (s1 & c & s2 & -> & Hs1 & Hc).
    exists (s1 ++ [c]), s2. rewrite <- app_assoc. split; [done|].
    split; [|apply any_matches].
    constructor; [by apply star_class_matches|by constructor].
Qed.

(** In a string that [.] matches throughout, a prefix that [.*] matches
    followed by a code unit of a class is there exactly when the string
    has a code unit of the class. *)
Lemma prefix_then_class (dot cls : N -> bool) s :
  forallb dot s = true ->
  (exists s1 c s2, s = s1 ++ c :: s2 /\ forallb dot s1 = true /\ cls c = true)
  <-> existsb cls s = true.
Proof.
  intros Hdot. rewrite existsb_exists. split.
  - intros (s1 & c & s2 & -> & _ & Hc). exists c. split; [|done].
    apply in_or_app. right. by left.
  - intros (c & Hin & Hc). apply in_split in Hin as (s1 & s2 & ->).
    exists s1, c, s2. split; [done|]. split; [|done].
    rewrite forallb_app in Hdot. by apply andb_true_iff in Hdot as [? _].
Qed.

Lemma dot_class c :
  class_mem true [(0x0a, 0x0a); (0x0d, 0x0d); (0x2028, 0x2029)]%N c
  = negb (is_line_terminator c).
Proof.
  unfold class_mem, in_ranges, is_line_terminator, code_in. simpl.
  by rewrite orb_false_r, orb_assoc.
Qed.

Lemma symbol_class c :
  class_mem true [(0x30, 0x39); (0x61, 0x7a); (0x41, 0x5a)]%N c = is_symbol c.
Proof.
  unfold class_mem, in_ranges, is_symbol, is_digit, is_lowercase,
    is_uppercase, code_in. simpl.
  by rewrite orb_false_r, orb_assoc.
Qed.

Lemma range_class lo hi c : class_mem false [(lo, hi)] c = code_in lo hi c.
Proof.
  unfold class_mem, in_ranges, code_in. simpl. by rewrite orb_false_r.
Qed.

Lemma forallb_eq {A : Type} (f g : A -> bool) l :
  (forall x, f x = g x) -> forallb f l = forallb g l.
Proof. intros Hfg. induction l as [|x l IH]; simpl; [done|]. by rewrite Hfg, IH. Qed.

Lemma existsb_eq {A : Type} (f g : A -> bool) l :
  (forall x, f x = g x) -> existsb f l = existsb g l.
Proof. intros Hfg. induction l as [|x l IH]; simpl; [done|]. by rewrite Hfg, IH. Qed.

Lemma password_regex_matches s :
  matches password_regex s <->
  password_spec 8 s = true /\
  forallb (fun c => negb (is_line_terminator c)) s = true.
Proof.
  unfold password_regex, Dot. rewrite !lookahead_matches.
  rewrite atleast_class_matches.
  rewrite (forallb_eq _ _ s dot_class).
  unfold password_spec. rewrite !andb_true_iff, Nat.leb_le.
  rewrite <- (existsb_eq _ is_digit s (range_class 0x30 0x39)).
  rewrite <- (existsb_eq _ is_lowercase s (range_class 0x61 0x7a)).
  rewrite <- (existsb_eq _ is_uppercase s (range_class 0x41 0x5a)).
  rewrite <- (existsb_eq _ is_symbol s symbol_class).
  split.
  - intros (Hdigit & Hlower & Hupper & Hsymbol & Hlen & Hdot).
    rewrite <- (forallb_eq _ _ s dot_class) in Hdot.
    rewrite prefix_then_class in Hdigit, Hlower, Hupper, Hsymbol by done.
    rewrite (forallb_eq _ _ s dot_class) in Hdot. done.
  - intros [((((Hlen & Hlower) & Hupper) & Hdigit) & Hsymbol) Hdot].
    rewrite <- (forallb_eq _ _ s dot_class) in Hdot.
    rewrite !prefix_then_class by done.
    rewrite (forallb_eq _ _ s dot_class) in Hdot. done.
Qed.

(** ** The pass is: await every rule, then rebuild the report *)

Lemma validate_rules_eval target property value rules :
  forall validations isValid' isValidProperty w,
    validate_rules target property value rules validations
      isValid' isValidProperty w
    = match eval_rules target property value rules w with
      | (Resolved outcomes, w') =>
          (Resolved (record_rules property outcomes validations,
                     isValid' && all_passed outcomes,
                     isValidProperty && all_passed outcomes), w')
      | (Rejected reason, w') => (Rejected reason, w')
      end.
Proof.
  induction rules as [|[ruleName rule] rest IH]; intros validations iv ivp w.
  - simpl. unfold ret. by rewrite !andb_true_r.
  - simpl. unfold bind.
    destruct (isValid rule target property value w) as [[passed|reason] w1];
      [|done].
    destruct passed; rewrite IH;
      destruct (eval_rules target property value rest w1)
        as [[outcomes|reason] w2]; try done; unfold ret; simpl.
    by rewrite !andb_false_r.
Qed.

Lemma validate_properties_eval target schema :
  forall validations isValid' w,
    validate_properties target schema validations isValid' w
    = match eval_schema target schema w with
      | (Resolved table, w') =>
          (Resolved (record_schema table validations,
                     isValid' && forallb (fun entry => all_passed entry.2) table),
           w')
      | (Rejected reason, w') => (Rejected reason, w')
      end.
Proof.
  induction schema as [|[property rules] rest IH]; intros validations iv w.
  - simpl. unfold ret. by rewrite andb_true_r.
  - simpl. unfold bind. rewrite validate_rules_eval.
    destruct (eval_rules target property (get target property) rules w)
      as [[outcomes|reason] w1]; [|done].
    rewrite IH.
    destruct (eval_schema target rest w1) as [[table|reason] w2]; [|done].
    unfold ret. simpl. by rewrite andb_assoc.
Qed.

Lemma validate_eval schema target w :
  validate (createValidator schema) target w
  = match eval_schema target schema w with
    | (Resolved table, w') =>
        (Resolved
           (<["isValid" :=
                FBoolean (forallb (fun entry => all_passed entry.2) table)]>
              (record_schema table (seeded schema))), w')
    | (Rejected reason, w') => (Rejected reason, w')
    end.
Proof.
  simpl. unfold bind. rewrite validate_properties_eval.
  by destruct (eval_schema target schema w) as [[table|reason] w'].
Qed.

(** ** What awaiting the rules can give *)

Lemma eval_rules_cases target property value rules w :
  match eval_rules target property value rules w with
  | (Resolved outcomes, _) =>
      Forall2 (verdict_of target property value) rules outcomes
  | (Rejected reason, w') =>
      exists ruleName rule w0,
        In (ruleName, rule) rules /\
        isValid rule target property value w0 = (Rejected reason, w')
  end.
Proof.
  revert w. induction rules as [|[ruleName rule] rest IH]; intros w; simpl.
  - constructor.
  - unfold bind.
    destruct (isValid rule target property value w)
      as [[passed|reason] w1] eqn:Hrule.
    + specialize (IH w1).
      destruct (eval_rules target property value rest w1)
        as [[outcomes|reason] w2]; simpl.
      * constructor; [|done]. split; [done|]. simpl. eauto.
      * destruct IH as (r & rl & w0 & Hin & Hrej). eauto 8.
    + exists ruleName, rule, w. eauto.
Qed.

Lemma eval_schema_cases target schema w :
  match eval_schema target schema w with
  | (Resolved table, _) =>
      Forall2 (fun entry outcomes =>
                 entry.1 = outcomes.1 /\
                 Forall2 (verdict_of target entry.1 (get target entry.1))
                         entry.2 outcomes.2)
              schema table
  | (Rejected reason, w') =>
      exists property ruleName rule w0,
        rule_of schema property ruleName rule /\
        isValid rule target property (get target property) w0
        = (Rejected reason, w')
  end.
Proof.
  revert w. induction schema as [|[property rules] rest IH]; intros w; simpl.
  - constructor.
  - unfold bind.
    pose proof (eval_rules_cases target property (get target property) rules w)
      as Hrules.
    destruct (eval_rules target property (get target property) rules w)
      as [[outcomes|reason] w1].
    + specialize (IH w1).
      destruct (eval_schema target rest w1) as [[table|reason] w2]; simpl.
      * by constructor.
      * destruct IH as (p & r & rl & w0 & (rs & Hin & Hin') & Hrej).
        exists p, r, rl, w0. split; [|done]. exists rs. split; [by right|done].
    + destruct Hrules as (r & rl & w0 & Hin & Hrej).
      exists property, r, rl, w0. split; [|done].
      exists rules. split; [by left|done].
Qed.

Lemma verdicts_keys target property value rules outcomes :
  Forall2 (verdict_of target property value) rules outcomes ->
  keys outcomes = keys rules.
Proof.
  induction 1 as [|entry outcome rules outcomes [Hname _] _ IH]; [done|].
  unfold keys in *. simpl. by rewrite IH, Hname.
Qed.

(** When every rule of the list resolves, so does awaiting them all. *)
Lemma eval_rules_resolves target property value rules :
  (forall ruleName rule, In (ruleName, rule) rules ->
     resolves rule target property value) ->
  forall w, exists outcomes w',
    eval_rules target property value rules w = (Resolved outcomes, w').
Proof.
  induction rules as [|[ruleName rule] rest IH]; intros Hres w; simpl.
  - unfold ret. eauto.
  - unfold bind.
    destruct (Hres ruleName rule (or_introl eq_refl) w) as (passed & w1 & ->).
    destruct (IH (fun r rl Hin => Hres r rl (or_intror Hin)) w1)
      as (outcomes & w2 & ->).
    unfold ret. eauto.
Qed.

Lemma eval_schema_resolves target schema :
  (forall property ruleName rule, rule_of schema property ruleName rule ->
     resolves rule target property (get target property)) ->
  forall w, exists table w',
    eval_schema target schema w = (Resolved table, w').
Proof.
  induction schema as [|[property rules] rest IH]; intros Hres w; simpl.
  - unfold ret. eauto.
  - unfold bind.
    destruct (eval_rules_resolves target property (get target property) rules)
      with (w := w) as (outcomes & w1 & ->).
    { intros r rl Hin. apply (Hres property r rl). exists rules.
      split; [by left|done]. }
    destruct (IH) with (w := w1) as (table & w2 & ->).
    { intros p r rl (rs & Hin & Hin'). apply (Hres p r rl). exists rs.
      split; [by right|done]. }
    unfold ret. eauto.
Qed.

(** When every rule of the list is deterministic, awaiting them all settles
    one way and leaves the world alone. *)
Lemma eval_rules_deterministic target property value rules :
  (forall ruleName rule, In (ruleName, rule) rules -> deterministic rule) ->
  exists outcome, forall w,
    eval_rules target property value rules w = (outcome, w).
Proof.
  induction rules as [|[ruleName rule] rest IH]; intros Hdet; simpl.
  - by exists (Resolved []).
  - destruct (Hdet ruleName rule (or_introl eq_refl)) as [verdict Hrule].
    destruct (IH (fun r rl Hin => Hdet r rl (or_intror Hin)))
      as [others Hothers].
    exists (match verdict target property value with
            | Resolved passed =>
                match others with
                | Resolved outcomes => Resolved ((ruleName, passed) :: outcomes)
                | Rejected reason => Rejected reason
                end
            | Rejected reason => Rejected reason
            end).
    intros w. unfold bind. rewrite Hrule.
    destruct (verdict target property value); [|done].
    rewrite Hothers. by destruct others.
Qed.

Lemma eval_schema_deterministic target schema :
  (forall property ruleName rule, rule_of schema property ruleName rule ->
     deterministic rule) ->
  exists outcome, forall w, eval_schema target schema w = (outcome, w).
Proof.
  induction schema as [|[property rules] rest IH]; intros Hdet; simpl.
  - by exists (Resolved []).
  - destruct (eval_rules_deterministic target property
                (get target property) rules) as [first Hfirst].
    { intros r rl Hin. apply (Hdet property r rl). exists rules.
      split; [by left|done]. }
    destruct IH as [others Hothers].
    { intros p r rl (rs & Hin & Hin'). apply (Hdet p r rl). exists rs.
      split; [by right|done]. }
    exists (match first with
            | Resolved outcomes =>
                match others with
                | Resolved table => Resolved ((property, outcomes) :: table)
                | Rejected reason => Rejected reason
                end
            | Rejected reason => Rejected reason
            end).
    intros w. unfold bind. rewrite Hfirst. destruct first; [|done].
    rewrite Hothers. by destruct others.
Qed.

(** ** What rebuilding the report gives *)

Lemma set_in_property_other validations property name b other :
  other <> property ->
  set_in_property validations property name b !! other = validations !! other.
Proof. intros Hne. unfold set_in_property. by rewrite lookup_insert_ne. Qed.

Lemma set_in_property_same validations property name b :
  set_in_property validations property name b !! property
  = Some (FObject (<[name := b]> (spread (validations !! property)))).
Proof. unfold set_in_property. by rewrite lookup_insert_eq. Qed.

Lemma insert_all_other {V : Type} (outcomes : list (string * V)) :
  forall (o : gmap string V) name,
  ~ In name (keys outcomes) -> insert_all outcomes o !! name = o !! name.
Proof.
  induction outcomes as [|[r b] rest IH]; intros o name Hnot; [done|].
  simpl in *. unfold insert_all in *. simpl. rewrite IH by tauto.
  apply lookup_insert_ne. tauto.
Qed.

Lemma insert_all_same {V : Type} (outcomes : list (string * V)) :
  forall (o : gmap string V) name b,
  NoDup (keys outcomes) -> In (name, b) outcomes ->
  insert_all outcomes o !! name = Some b.
Proof.
  induction outcomes as [|[r c] rest IH]; intros o name b Hnd Hin; [done|].
  simpl in Hnd. inversion Hnd as [|? ? Hfresh Hnd']; subst.
  destruct Hin as [[= -> ->]|Hin].
  - unfold insert_all. simpl. fold (insert_all rest (<[name := b]> o)).
    rewrite insert_all_other by (by rewrite <- list_elem_of_In).
    apply lookup_insert_eq.
  - unfold insert_all. simpl. fold (insert_all rest (<[r := c]> o)).
    by apply IH.
Qed.

Lemma record_rules_other property outcomes : forall validations other,
  other <> property ->
  record_rules property outcomes validations !! other = validations !! other.
Proof.
  induction outcomes as [|[r b] rest IH]; intros validations other Hne;
    [done|].
  unfold record_rules in *. simpl. rewrite IH by done.
  by apply set_in_property_other.
Qed.

Lemma record_rules_same property outcomes : forall validations,
  spread (record_rules property outcomes validations !! property)
  = insert_all outcomes (spread (validations !! property)).
Proof.
  induction outcomes as [|[r b] rest IH]; intros validations; [done|].
  unfold record_rules, insert_all in *. simpl. rewrite IH.
  by rewrite set_in_property_same.
Qed.

Lemma record_property_other validations property outcomes other :
  other <> property ->
  record_property validations (property, outcomes) !! other
  = validations !! other.
Proof.
  intros Hne. unfold record_property. simpl.
  rewrite set_in_property_other by done. by apply record_rules_other.
Qed.

Lemma record_property_same validations property outcomes :
  record_property validations (property, outcomes) !! property
  = Some (FObject (<["isValid" := all_passed outcomes]>
                     (insert_all outcomes (spread (validations !! property))))).
Proof.
  unfold record_property. simpl.
  by rewrite set_in_property_same, record_rules_same.
Qed.

Lemma record_schema_other table : forall validations other,
  ~ In other (keys table) ->
  record_schema table validations !! other = validations !! other.
Proof.
  induction table as [|[p outcomes] rest IH]; intros validations other Hnot;
    [done|].
  simpl in Hnot. unfold record_schema in *. simpl. rewrite IH by tauto.
  apply record_property_other. intros ->. tauto.
Qed.

Lemma record_schema_same table : forall validations property outcomes,
  NoDup (keys table) -> In (property, outcomes) table ->
  record_schema table validations !! property
  = Some (FObject (<["isValid" := all_passed outcomes]>
                     (insert_all outcomes (spread (validations !! property))))).
Proof.
  induction table as [|[p o] rest IH];
    intros validations property outcomes Hnd Hin; [done|].
  simpl in Hnd. inversion Hnd as [|? ? Hfresh Hnd']; subst.
  rewrite list_elem_of_In in Hfresh.
  unfold record_schema in *. simpl.
  destruct Hin as [[= -> ->]|Hin].
  - rewrite (record_schema_other rest) by done.
    apply record_property_same.
  - rewrite (IH _ property outcomes) by done.
    rewrite record_property_other; [done|].
    intros ->. apply Hfresh. change (In p (map fst rest)).
    apply in_map_iff. by exists (p, outcomes).
Qed.

(** ** Conjunctions *)

Lemma and_all_map {A : Type} (f : A -> option bool) (g : A -> bool) l :
  (forall x, In x l -> f x = Some (g x)) ->
  and_all (map f l) = Some (forallb g l).
Proof.
  induction l as [|x rest IH]; intros Hf; [done|].
  simpl. rewrite (Hf x) by (by left). rewrite IH; [done|].
  intros y Hy. apply Hf. by right.
Qed.

(** Putting the conjunction of all the outcomes in the place of one of them
    does not change the conjunction. *)
Lemma all_passed_absorbs (name : string) (outcomes : list (string * bool)) :
  forallb (fun outcome =>
             if decide (outcome.1 = name) then all_passed outcomes
             else outcome.2) outcomes
  = all_passed outcomes.
Proof.
  unfold all_passed.
  destruct (forallb snd outcomes) eqn:Hall.
  - apply forallb_forall. intros outcome Hin.
    rewrite forallb_forall in Hall. case_decide; [done|by apply Hall].
  - apply not_true_is_false. intros Hg. rewrite forallb_forall in Hg.
    apply not_true_iff_false in Hall. apply Hall, forallb_forall.
    intros outcome Hin. specialize (Hg outcome Hin). by case_decide.
Qed.

Lemma keys_in {V : Type} (entries : list (string * V)) name value :
  In (name, value) entries -> In name (keys entries).
Proof. intros Hin. apply in_map_iff. by exists (name, value). Qed.

(** ** The report of a pass that resolved *)

Lemma table_keys target schema table :
  Forall2 (fun entry outcomes =>
             entry.1 = outcomes.1 /\
             Forall2 (verdict_of target entry.1 (get target entry.1))
                     entry.2 outcomes.2)
          schema table ->
  keys table = keys schema.
Proof.
  induction 1 as [|entry outcomes schema table [Hname _] _ IH]; [done|].
  unfold keys in *. simpl. by rewrite IH, Hname.
Qed.

Lemma table_entry target schema table property rules :
  Forall2 (fun entry outcomes =>
             entry.1 = outcomes.1 /\
             Forall2 (verdict_of target entry.1 (get target entry.1))
                     entry.2 outcomes.2)
          schema table ->
  In (property, rules) schema ->
  exists outcomes,
    In (property, outcomes) table /\
    Forall2 (verdict_of target property (get target property)) rules outcomes.
Proof.
  induction 1 as [|entry [p outcomes] schema table [Hname Hrules] _ IH];
    intros Hin; [done|].
  destruct Hin as [->|Hin].
  - simpl in *. subst p. exists outcomes. split; [by left|done].
  - destruct (IH Hin) as (o & Ho & Hv). exists o. split; [by right|done].
Qed.

(** In the report of a pass, each property of the schema that is not named
    [isValid] holds an object: what the pass recorded for its rules, under
    the property's own [isValid]. *)
Lemma report_property table validations b property outcomes :
  NoDup (keys table) -> In (property, outcomes) table ->
  property <> "isValid" ->
  property_report
    (<["isValid" := FBoolean b]> (record_schema table validations)) property
  = Some (<["isValid" := all_passed outcomes]>
            (insert_all outcomes (spread (validations !! property)))).
Proof.
  intros Hnd Hin Hne. unfold property_report.
  rewrite lookup_insert_ne by done.
  by rewrite (record_schema_same table validations property outcomes).
Qed.

(** C3, amended. For every schema in which no property is named [isValid]
    and every target, the report that [validate] resolves with satisfies
    both aggregation equations: its top-level [isValid] is the conjunction,
    over the properties of the schema, of the report's per-property
    [isValid], and each property's [isValid] is the conjunction, over the
    rules under it, of the report's boolean for the rule; all these
    booleans are there, and a property without rules has [isValid] true. *)
Theorem validate_aggregates schema target w report w' :
  schema_wf schema ->
  ~ In "isValid" (keys schema) ->
  validate (createValidator schema) target w = (Resolved report, w') ->
  aggregates schema report /\
  (forall property, In (property, []) schema ->
     property_isValid report property = Some true).
Proof.
  intros [Hnd Hrules] Hreserved Hrun. rewrite validate_eval in Hrun.
  pose proof (eval_schema_cases target schema w) as Htable.
  destruct (eval_schema target schema w) as [[table|reason] w2]; [|done].
  injection Hrun as <- <-.
  pose proof (table_keys _ _ _ Htable) as Hkeys.
  set (all := forallb (fun entry => all_passed entry.2) table).
  set (report := <["isValid" := FBoolean all]>
                   (record_schema table (seeded schema))).
  assert (Hprop : forall property outcomes, In (property, outcomes) table ->
    property_report report property
    = Some (<["isValid" := all_passed outcomes]>
              (insert_all outcomes (spread (seeded schema !! property))))).
  { intros property outcomes Hin.
    apply report_property; [by rewrite Hkeys|done|].
    intros ->. apply Hreserved. rewrite <- Hkeys. by eapply keys_in. }
  assert (Hagg : forall property outcomes, In (property, outcomes) table ->
    property_isValid report property = Some (all_passed outcomes)).
  { intros property outcomes Hin. unfold property_isValid.
    rewrite (Hprop _ _ Hin). apply lookup_insert_eq. }
  assert (Hall : forall property rules, In (property, rules) schema ->
    is_Some (property_isValid report property) /\
    property_isValid report property
    = and_all (map (rule_result report property) (keys rules))).
  { intros property rules Hin.
    destruct (table_entry _ _ _ _ _ Htable Hin) as (outcomes & Hout & Hv).
    rewrite (Hagg _ _ Hout). split; [done|].
    rewrite <- (verdicts_keys _ _ _ _ _ Hv). unfold keys. rewrite map_map.
    rewrite (and_all_map _
      (fun outcome => if decide (outcome.1 = "isValid")
                      then all_passed outcomes else outcome.2)).
    - by rewrite all_passed_absorbs.
    - intros [r passed] Hr. unfold rule_result. rewrite (Hprop _ _ Hout).
      simpl. case_decide as Hname.
      + subst r. apply lookup_insert_eq.
      + rewrite lookup_insert_ne by done.
        apply insert_all_same; [|done].
        rewrite (verdicts_keys _ _ _ _ _ Hv).
        rewrite Forall_forall in Hrules.
        apply (Hrules (property, rules)). by apply list_elem_of_In. }
  split; [split; [|done]|].
  - unfold report_isValid, report. rewrite lookup_insert_eq. split; [done|].
    rewrite <- Hkeys. unfold keys. rewrite map_map.
    symmetry. apply and_all_map. intros [property outcomes] Hin.
    by apply Hagg.
  - intros property Hin. destruct (Hall property [] Hin) as [_ ->]. done.
Qed.

Lemma verdicts_entry target property value rules outcomes ruleName rule :
  Forall2 (verdict_of target property value) rules outcomes ->
  In (ruleName, rule) rules ->
  exists passed,
    In (ruleName, passed) outcomes /\
    exists w0 w1,
      isValid rule target property value w0 = (Resolved passed, w1).
Proof.
  induction 1 as [|entry [r passed] rules outcomes [Hname Hrun] _ IH];
    intros Hin; [done|].
  destruct Hin as [->|Hin].
  - simpl in *. subst r. exists passed. split; [by left|done].
  - destruct (IH Hin) as (b & Hb & Hv). exists b. split; [by right|done].
Qed.

(** When a rule of the schema rejects in every state of the world,
    [validate] rejects, with the reason and the final state of a rejecting
    call of a rule of the schema. *)
Lemma rejecting_rule_aborts_pass schema target property ruleName rule :
  rule_of schema property ruleName rule ->
  rejects rule target property (get target property) ->
  forall w, exists reason w',
    validate (createValidator schema) target w = (Rejected reason, w') /\
    exists property0 ruleName0 rule0 w0,
      rule_of schema property0 ruleName0 rule0 /\
      isValid rule0 target property0 (get target property0) w0
      = (Rejected reason, w').
Proof.
  intros (rules & Hin & Hin') Hrejects w. rewrite validate_eval.
  pose proof (eval_schema_cases target schema w) as Hcases.
  destruct (eval_schema target schema w) as [[table|reason] w'].
  - exfalso.
    destruct (table_entry _ _ _ _ _ Hcases Hin) as (outcomes & _ & Hv).
    destruct (verdicts_entry _ _ _ _ _ _ _ Hv Hin')
      as (passed & _ & w0 & w1 & Hresolved).
    destruct (Hrejects w0) as (reason & w2 & Hrejected). congruence.
  - exists reason, w'. split; [done|].
    destruct Hcases as (p & r & rl & w0 & Hof & Hrej). eauto 8.
Qed.

(** ** The first call that rejects *)

Lemma eval_rules_app target property value rules1 rules2 w :
  eval_rules target property value (rules1 ++ rules2) w
  = match eval_rules target property value rules1 w with
    | (Resolved outcomes1, w1) =>
        match eval_rules target property value rules2 w1 with
        | (Resolved outcomes2, w2) => (Resolved (outcomes1 ++ outcomes2), w2)
        | (Rejected reason, w2) => (Rejected reason, w2)
        end
    | (Rejected reason, w1) => (Rejected reason, w1)
    end.
Proof.
  revert w. induction rules1 as [|[ruleName rule] rest IH]; intros w; simpl.
  - unfold ret.
    by destruct (eval_rules target property value rules2 w) as [[o|e] w2].
  - unfold bind.
    destruct (isValid rule target property value w) as [[passed|reason] w1];
      [|done].
    rewrite IH.
    destruct (eval_rules target property value rest w1) as [[o1|e] w2];
      [|done].
    unfold ret. simpl.
    by destruct (eval_rules target property value rules2 w2) as [[o2|e] w3].
Qed.

Lemma eval_schema_app target schema1 schema2 w :
  eval_schema target (schema1 ++ schema2) w
  = match eval_schema target schema1 w with
    | (Resolved table1, w1) =>
        match eval_schema target schema2 w1 with
        | (Resolved table2, w2) => (Resolved (table1 ++ table2), w2)
        | (Rejected reason, w2) => (Rejected reason, w2)
        end
    | (Rejected reason, w1) => (Rejected reason, w1)
    end.
Proof.
  revert w. induction schema1 as [|[property rules] rest IH]; intros w; simpl.
  - unfold ret. by destruct (eval_schema target schema2 w) as [[t|e] w2].
  - unfold bind.
    destruct (eval_rules target property (get target property) rules w)
      as [[outcomes|reason] w1]; [|done].
    rewrite IH.
    destruct (eval_schema target rest w1) as [[t1|e] w2]; [|done].
    unfold ret. simpl.
    by destruct (eval_schema target schema2 w2) as [[t2|e] w3].
Qed.

(** A pass over a schema resolves exactly when awaiting its rules does,
    and leaves the world in the same state. *)
Lemma validate_resolves_eval schema target w w' :
  (exists report,
     validate (createValidator schema) target w = (Resolved report, w')) <->
  (exists table, eval_schema target schema w = (Resolved table, w')).
Proof.
  rewrite validate_eval.
  destruct (eval_schema target schema w) as [[table|reason] w2].
  - split; intros [x [= _ <-]]; eauto.
  - split; by intros [x ?].
Qed.

Lemma eval_one_property target property rules w w' :
  (exists table,
     eval_schema target [(property, rules)] w = (Resolved table, w')) <->
  (exists outcomes,
     eval_rules target property (get target property) rules w
     = (Resolved outcomes, w')).
Proof.
  simpl. unfold bind, ret.
  destruct (eval_rules target property (get target property) rules w)
    as [[outcomes|reason] w2].
  - split; intros [x [= _ <-]]; eauto.
  - split; by intros [x ?].
Qed.

Lemma eval_rules_rejected target property value rules : forall w reason w',
  eval_rules target property value rules w = (Rejected reason, w') ->
  exists rules_before ruleName rule rules_after outcomes w2,
    rules = rules_before ++ (ruleName, rule) :: rules_after /\
    eval_rules target property value rules_before w = (Resolved outcomes, w2) /\
    isValid rule target property value w2 = (Rejected reason, w').
Proof.
  induction rules as [|[ruleName rule] rest IH]; intros w reason w' Hrun;
    [done|].
  simpl in Hrun. unfold bind in Hrun.
  destruct (isValid rule target property value w)
    as [[passed|reason0] w1] eqn:Hrule.
  - destruct (eval_rules target property value rest w1)
      as [[outcomes|reason1] w2] eqn:Hrest; [done|].
    injection Hrun as -> ->.
    destruct (IH _ _ _ Hrest) as (rb & r & rl & ra & o & w3 & -> & Hb & Hrej).
    exists ((ruleName, rule) :: rb), r, rl, ra, ((ruleName, passed) :: o), w3.
    split; [done|]. split; [|done].
    simpl. unfold bind. by rewrite Hrule, Hb.
  - injection Hrun as -> ->.
    exists [], ruleName, rule, rest, [], w. done.
Qed.

Lemma eval_schema_rejected target schema : forall w reason w',
  eval_schema target schema w = (Rejected reason, w') ->
  exists before property rules_before ruleName rule rules_after after
         table w1 outcomes w2,
    schema = before
             ++ (property, rules_before ++ (ruleName, rule) :: rules_after)
             :: after /\
    eval_schema target before w = (Resolved table, w1) /\
    eval_rules target property (get target property) rules_before w1
    = (Resolved outcomes, w2) /\
    isValid rule target property (get target property) w2
    = (Rejected reason, w').
Proof.
  induction schema as [|[property rules] rest IH]; intros w reason w' Hrun;
    [done|].
  simpl in Hrun. unfold bind in Hrun.
  destruct (eval_rules target property (get target property) rules w)
    as [[outcomes|reason0] w1] eqn:Hrules.
  - destruct (eval_schema target rest w1) as [[table|reason1] w2] eqn:Hrest;
      [done|].
    injection Hrun as -> ->.
    destruct (IH _ _ _ Hrest)
      as (b & p & rb & r & rl & ra & a & t & w3 & o & w4 & -> & Hb & Ho & Hrej).
    exists ((property, rules) :: b), p, rb, r, rl, ra, a,
           ((property, outcomes) :: t), w3, o, w4.
    split; [done|]. split; [|done].
    simpl. unfold bind. by rewrite Hrules, Hb.
  - injection Hrun as -> ->.
    destruct (eval_rules_rejected _ _ _ _ _ _ _ Hrules)
      as (rb & r & rl & ra & o & w2 & -> & Hb & Hrej).
    exists [], property, rb, r, rl, ra, rest, [], w, o, w2. done.
Qed.

(** C4. [validate] rejects exactly when a call of a rule rejects in the
    state of the world that the pass has reached: the properties before
    it, and the rules before it under its own property, have resolved,
    leaving the world in that state. [validate] then rejects with the
    reason of that call and leaves the world as that call left it: the
    rule is not called again, no rule after it is called, and the caller
    gets no report. The engine catches nothing, and it never rejects by
    itself. *)
Theorem validate_propagates_rejection schema target w reason w' :
  validate (createValidator schema) target w = (Rejected reason, w') <->
  exists before property rules_before ruleName rule rules_after after
         report1 w1 report2 w2,
    schema = before
             ++ (property, rules_before ++ (ruleName, rule) :: rules_after)
             :: after /\
    validate (createValidator before) target w = (Resolved report1, w1) /\
    validate (createValidator [(property, rules_before)]) target w1
    = (Resolved report2, w2) /\
    isValid rule target property (get target property) w2
    = (Rejected reason, w').
Proof.
  split.
  - rewrite validate_eval. intros Hrun.
    destruct (eval_schema target schema w) as [[table|reason0] w0] eqn:Heval;
      [done|].
    injection Hrun as -> ->.
    destruct (eval_schema_rejected _ _ _ _ _ Heval)
      as (b & p & rb & r & rl & ra & a & t & w1 & o & w2 & -> & Hb & Ho & Hrej).
    destruct (proj2 (validate_resolves_eval b target w w1)) as [report1 H1];
      [eauto|].
    destruct (proj2 (validate_resolves_eval [(p, rb)] target w1 w2))
      as [report2 H2].
    { apply eval_one_property. eauto. }
    exists b, p, rb, r, rl, ra, a, report1, w1, report2, w2. done.
  - intros (b & p & rb & r & rl & ra & a & report1 & w1 & report2 & w2
            & -> & H1 & H2 & Hrej).
    destruct (proj1 (validate_resolves_eval b target w w1)) as [t Hb]; [eauto|].
    destruct (proj1 (eval_one_property target p rb w1 w2)) as [o Ho].
    { apply validate_resolves_eval. eauto. }
    rewrite validate_eval, eval_schema_app, Hb. simpl. unfold bind.
    by rewrite eval_rules_app, Ho; simpl; unfold bind; rewrite Hrej.
Qed.

(** C5, amended. For every schema in which no property is named [isValid]
    and every target on which the rules of the schema resolve, [validate]
    resolves with a report, also when a property of the schema is absent
    from the target. Under each property of the schema the report holds an
    object with a boolean for every rule of the property. Every rule of a
    property was called on the target's value under that name, [undefined]
    when the property is absent, and the boolean of the rule is what that
    call resolved to (for a rule named [isValid], the property's aggregate
    takes that place). *)
Theorem validate_absent_property schema target :
  schema_wf schema ->
  ~ In "isValid" (keys schema) ->
  (forall property ruleName rule, rule_of schema property ruleName rule ->
     resolves rule target property (get target property)) ->
  forall w, exists report w',
    validate (createValidator schema) target w = (Resolved report, w') /\
    forall property rules, In (property, rules) schema ->
      exists o,
        report !! property = Some (FObject o) /\
        forall ruleName rule, In (ruleName, rule) rules ->
          exists passed verdict,
            o !! ruleName = Some passed /\
            (ruleName <> "isValid" -> passed = verdict) /\
            (exists w0 w1,
               isValid rule target property (get target property) w0
               = (Resolved verdict, w1)) /\
            (target !! property = None ->
             exists w0 w1,
               isValid rule target property VUndefined w0
               = (Resolved verdict, w1)).
Proof.
  intros [Hnd Hrules] Hreserved Hresolve w. rewrite validate_eval.
  destruct (eval_schema_resolves target schema Hresolve w)
    as (table & w' & Hrun).
  pose proof (eval_schema_cases target schema w) as Htable.
  rewrite Hrun in *. eexists _, w'. split; [done|].
  intros property rules Hin.
  pose proof (table_keys _ _ _ Htable) as Hkeys.
  destruct (table_entry _ _ _ _ _ Htable Hin) as (outcomes & Hout & Hv).
  assert (property <> "isValid") as Hne.
  { intros ->. apply Hreserved. by eapply keys_in. }
  eexists. split.
  { rewrite lookup_insert_ne by done.
    apply record_schema_same; [by rewrite Hkeys|done]. }
  intros ruleName rule Hrule.
  destruct (verdicts_entry _ _ _ _ _ _ _ Hv Hrule)
    as (verdict & Hverdict & Hcall).
  assert (target !! property = None ->
          exists w0 w1,
            isValid rule target property VUndefined w0
            = (Resolved verdict, w1)) as Habsent.
  { intros Hnone. unfold get in Hcall. by rewrite Hnone in Hcall. }
  destruct (decide (ruleName = "isValid")) as [->|Hname].
  - eexists _, verdict. split; [apply lookup_insert_eq|done].
  - exists verdict, verdict. split; [|done].
    rewrite lookup_insert_ne by done. apply insert_all_same; [|done].
    rewrite (verdicts_keys _ _ _ _ _ Hv).
    rewrite Forall_forall in Hrules.
    apply (Hrules (property, rules)). by apply list_elem_of_In.
Qed.

(** C6. For every schema whose rules are deterministic and free of side
    effects, and every target, [validate] settles one way: every call with
    that target, in whatever state of the world and so also a second call
    after a first, gives the same outcome, hence reports that are equal
    field by field, and leaves the world as it found it. *)
Theorem validate_deterministic schema target :
  (forall property ruleName rule, rule_of schema property ruleName rule ->
     deterministic rule) ->
  exists outcome, forall w,
    validate (createValidator schema) target w = (outcome, w).
Proof.
  intros Hdet.
  destruct (eval_schema_deterministic target schema Hdet) as [settled Hrun].
  exists (match settled with
          | Resolved table =>
              Resolved
                (<["isValid" :=
                     FBoolean (forallb (fun entry => all_passed entry.2) table)]>
                   (record_schema table (seeded schema)))
          | Rejected reason => Rejected reason
          end).
  intros w. rewrite validate_eval, Hrun. by destruct settled.
Qed.

(** ** The keys of the template and of a report *)

Lemma fromEntries_insert_all {V : Type} (entries : list (string * V)) :
  fromEntries entries = insert_all entries ∅.
Proof. reflexivity. Qed.

Lemma dom_insert_all {V : Type} (entries : list (string * V)) :
  forall o : gmap string V,
    dom (insert_all entries o) = dom o ∪ list_to_set (keys entries).
Proof.
  induction entries as [|[k v] rest IH]; intros o.
  - simpl. set_solver.
  - unfold insert_all in *. simpl. rewrite IH, dom_insert_L. set_solver.
Qed.

Lemma dom_set_in_property validations property name b :
  dom (set_in_property validations property name b)
  = {[property]} ∪ dom validations.
Proof. unfold set_in_property. by rewrite dom_insert_L. Qed.

Lemma dom_record_rules property outcomes : forall validations,
  dom (record_rules property outcomes validations) ∪ {[property]}
  = dom validations ∪ {[property]}.
Proof.
  induction outcomes as [|[r b] rest IH]; intros validations; [done|].
  unfold record_rules in *. simpl. rewrite IH, dom_set_in_property.
  set_solver.
Qed.

Lemma dom_record_schema table : forall validations,
  dom (record_schema table validations)
  = dom validations ∪ list_to_set (keys table).
Proof.
  induction table as [|[p outcomes] rest IH]; intros validations.
  - simpl. set_solver.
  - unfold record_schema in *. simpl. rewrite IH.
    unfold record_property. simpl. rewrite dom_set_in_property.
    rewrite (union_comm_L {[p]}), dom_record_rules. set_solver.
Qed.

Lemma insert_all_false (entries : list (string * bool)) :
  forall o : gmap string bool,
    (forall name b, o !! name = Some b -> b = false) ->
    (forall name b, In (name, b) entries -> b = false) ->
    forall name b, insert_all entries o !! name = Some b -> b = false.
Proof.
  induction entries as [|[k v] rest IH]; intros o Ho Hentries name b; [apply Ho|].
  unfold insert_all in *. simpl. apply IH.
  - intros name' b'. rewrite lookup_insert. case_decide.
    + intros [= <-]. apply (Hentries k). by left.
    + apply Ho.
  - intros name' b' Hin. apply (Hentries name'). by right.
Qed.

Lemma keys_seed {V : Type} (f : list (string * Rule W) -> V) schema :
  keys (map (fun '(property, rules) => (property, f rules)) schema)
  = keys schema.
Proof.
  unfold keys. rewrite map_map. apply map_ext. by intros [property rules].
Qed.

Lemma keys_false rules :
  keys (map (fun '(ruleName, _) => (ruleName, false))
            (rules : list (string * Rule W)))
  = keys rules.
Proof.
  unfold keys. rewrite map_map. apply map_ext. by intros [ruleName rule].
Qed.

(** What [initialValidation] and [validate]'s starting report hold under a
    property of the schema. *)
Lemma seed_initial_property schema property rules :
  NoDup (keys schema) -> In (property, rules) schema ->
  property <> "isValid" ->
  seed_initial schema !! property
  = Some (FObject (fromEntries
                     (map (fun '(ruleName, _) => (ruleName, false)) rules))).
Proof.
  intros Hnd Hin Hne. unfold seed_initial.
  rewrite lookup_insert_ne by done. rewrite fromEntries_insert_all.
  apply insert_all_same.
  - by rewrite (keys_seed (fun rules => FObject (fromEntries
      (map (fun '(ruleName, _) => (ruleName, false)) rules)))).
  - apply in_map_iff. by exists (property, rules).
Qed.

Lemma seeded_property schema property rules :
  NoDup (keys schema) -> In (property, rules) schema ->
  seeded schema !! property
  = Some (FObject (<["isValid" := false]>
                     (fromEntries
                        (map (fun '(ruleName, _) => (ruleName, false)) rules)))).
Proof.
  intros Hnd Hin. unfold seeded. rewrite fromEntries_insert_all.
  apply insert_all_same.
  - by rewrite (keys_seed (fun rules => FObject (<["isValid" := false]>
      (fromEntries (map (fun '(ruleName, _) => (ruleName, false)) rules))))).
  - apply in_map_iff. by exists (property, rules).
Qed.

(** On a list of entries, read the same way by the seeds and by the
    loops: the template and every report have the same top-level keys, and
    under a property the template holds the rule names, all false, and the
    report these and [isValid]. *)
Lemma own_only_shape schema target w report w' :
  schema_wf schema ->
  validate (createValidator schema) target w = (Resolved report, w') ->
  (dom (initialValidation (createValidator schema)) = dom report /\
   dom report = {["isValid"]} ∪ list_to_set (keys schema) /\
   report_isValid (initialValidation (createValidator schema)) = Some false) /\
  forall property rules, In (property, rules) schema ->
    property <> "isValid" ->
    exists template reported,
      property_report (initialValidation (createValidator schema)) property
      = Some template /\
      property_report report property = Some reported /\
      dom template = list_to_set (keys rules) /\
      dom reported = list_to_set (keys rules) ∪ {["isValid"]} /\
      forall ruleName b, template !! ruleName = Some b -> b = false.
Proof.
  intros [Hnd Hrules] Hrun. rewrite validate_eval in Hrun.
  pose proof (eval_schema_cases target schema w) as Htable.
  destruct (eval_schema target schema w) as [[table|reason] w2]; [|done].
  injection Hrun as <- <-.
  pose proof (table_keys _ _ _ Htable) as Hkeys.
  assert (dom (seed_initial schema)
          = {["isValid"]} ∪ list_to_set (keys schema)) as Hinitial.
  { unfold seed_initial. rewrite dom_insert_L, fromEntries_insert_all.
    rewrite dom_insert_all, dom_empty_L.
    rewrite (keys_seed (fun rules => FObject (fromEntries
      (map (fun '(ruleName, _) => (ruleName, false)) rules)))).
    set_solver. }
  assert (dom (seeded schema) = list_to_set (keys schema)) as Hseeded.
  { unfold seeded. rewrite fromEntries_insert_all.
    rewrite dom_insert_all, dom_empty_L.
    rewrite (keys_seed (fun rules => FObject (<["isValid" := false]>
      (fromEntries (map (fun '(ruleName, _) => (ruleName, false)) rules))))).
    set_solver. }
  split; [split; [|split]|].
  - simpl. rewrite Hinitial, dom_insert_L, dom_record_schema, Hseeded, Hkeys.
    set_solver.
  - rewrite dom_insert_L, dom_record_schema, Hseeded, Hkeys. set_solver.
  - simpl. unfold report_isValid, seed_initial. by rewrite lookup_insert_eq.
  - intros property rules Hin Hne.
    destruct (table_entry _ _ _ _ _ Htable Hin) as (outcomes & Hout & Hv).
    eexists _, _. split; [|split; [|split; [|split]]].
    + simpl. unfold property_report.
      by rewrite (seed_initial_property _ _ _ Hnd Hin Hne).
    + apply report_property; [by rewrite Hkeys|done|done].
    + rewrite fromEntries_insert_all, dom_insert_all, dom_empty_L, keys_false.
      set_solver.
    + rewrite dom_insert_L, dom_insert_all.
      rewrite (seeded_property _ _ _ Hnd Hin). simpl.
      rewrite dom_insert_L, fromEntries_insert_all, dom_insert_all.
      rewrite dom_empty_L, keys_false, (verdicts_keys _ _ _ _ _ Hv).
      set_solver.
    + rewrite fromEntries_insert_all. apply insert_all_false; [done|].
      intros name b (entry & Heq & _)%in_map_iff.
      destruct entry. by injection Heq as _ <-.
Qed.

Lemma validate_of_eval (schema : SchemaObject W) target w :
  validate (createValidatorOf schema) target w
  = match eval_schema target (enumerated schema) w with
    | (Resolved table, w') =>
        (Resolved
           (<["isValid" :=
                FBoolean (forallb (fun entry => all_passed entry.2) table)]>
              (record_schema table (seeded (entries schema)))), w')
    | (Rejected reason, w') => (Rejected reason, w')
    end.
Proof.
  simpl. unfold bind. rewrite validate_properties_eval.
  by destruct (eval_schema target (enumerated schema) w)
    as [[table|reason] w'].
Qed.

Lemma createValidatorOf_own_only schema :
  createValidatorOf (own_only schema) = createValidator schema.
Proof. reflexivity. Qed.

(** X1. [initialValidation] is seeded from the schema's own enumerable
    properties and the reports are filled by [for ... in]: the top-level
    keys of [initialValidation] are the own properties and [isValid],
    which is false, and the top-level keys of a report are these and every
    property that [for ... in] enumerates. When every enumerable property
    of the schema is its own, at both levels, the two have the same
    top-level keys; under a property of the schema (not named [isValid])
    [initialValidation] then holds an object whose keys are the names of
    the property's rules and whose booleans are all false, and the report
    an object with these keys and [isValid]. *)
Theorem initialValidation_shape (schema : SchemaObject W) target w report w' :
  schema_wf (entries schema) ->
  validate (createValidatorOf schema) target w = (Resolved report, w') ->
  (dom (initialValidation (createValidatorOf schema))
   = {["isValid"]} ∪ list_to_set (keys (entries schema)) /\
   dom report
   = dom (initialValidation (createValidatorOf schema))
     ∪ list_to_set (keys (enumerated schema)) /\
   report_isValid (initialValidation (createValidatorOf schema))
   = Some false) /\
  (enumerated schema = entries schema ->
   dom (initialValidation (createValidatorOf schema)) = dom report /\
   forall property rules, In (property, rules) (entries schema) ->
     property <> "isValid" ->
     exists template reported,
       property_report (initialValidation (createValidatorOf schema)) property
       = Some template /\
       property_report report property = Some reported /\
       dom template = list_to_set (keys rules) /\
       dom reported = list_to_set (keys rules) ∪ {["isValid"]} /\
       forall ruleName b, template !! ruleName = Some b -> b = false).
Proof.
  intros Hwf Hrun.
  assert (dom (seed_initial (entries schema))
          = {["isValid"]} ∪ list_to_set (keys (entries schema))) as Hinitial.
  { unfold seed_initial. rewrite dom_insert_L, fromEntries_insert_all.
    rewrite dom_insert_all, dom_empty_L.
    rewrite (keys_seed (fun rules => FObject (fromEntries
      (map (fun '(ruleName, _) => (ruleName, false)) rules)))).
    set_solver. }
  split; [split; [done|split]|].
  - rewrite validate_of_eval in Hrun.
    pose proof (eval_schema_cases target (enumerated schema) w) as Htable.
    destruct (eval_schema target (enumerated schema) w)
      as [[table|reason] w2]; [|done].
    injection Hrun as <- <-.
    simpl. rewrite Hinitial, dom_insert_L, dom_record_schema.
    rewrite (table_keys _ _ _ Htable).
    unfold seeded. rewrite fromEntries_insert_all, dom_insert_all, dom_empty_L.
    rewrite (keys_seed (fun rules => FObject (<["isValid" := false]>
      (fromEntries (map (fun '(ruleName, _) => (ruleName, false)) rules))))).
    set_solver.
  - simpl. unfold report_isValid, seed_initial. by rewrite lookup_insert_eq.
  - intros Hown.
    assert (validate (createValidator (entries schema)) target w
            = (Resolved report, w')) as Hplain.
    { rewrite <- Hrun. simpl. by rewrite Hown. }
    destruct (own_only_shape _ _ _ _ _ Hwf Hplain) as [(Hdom & _ & _) Hunder].
    split; [exact Hdom|exact Hunder].
Qed.

(** X2. For every [minimum] and every value, [isPassword(minimum)] resolves to
    true exactly when the value is a string of at least 8 code units, none
    of them a line terminator, with at least one lowercase letter, one
    uppercase letter, one digit and one symbol that is neither. *)
Theorem isPassword_accepts minimum target property value w :
  isValid (isPassword minimum) target property value w
  = (Resolved
       match value with
       | VString s =>
           password_spec 8 s
           && forallb (fun c => negb (is_line_terminator c)) s
       | _ => false
       end, w).
Proof.
  simpl. unfold ret. do 2 f_equal. destruct value; try done.
  apply eq_true_iff_eq.
  by rewrite test_anchored_matches, password_regex_matches, andb_true_iff.
Qed.

(** ** The rules of the catalogue *)

(** C1. [isPassword(minimum)] does not depend on [minimum]: whatever it is
    given, the rule is the one for the default, 8. So ["Aa1!"], which has
    length 4 and a lowercase letter, an uppercase letter, a digit and a
    symbol, is refused by [isPassword(4)], and ["Aa1!aaaa"], of length 8,
    is accepted by [isPassword(12)], against the specification's words in
    both cases. *)
Theorem isPassword_ignores_minimum :
  (forall minimum target property value w,
     isValid (isPassword minimum) target property value w
     = isValid isPassword_default target property value w) /\
  (password_spec 4 (code_units "Aa1!") = true /\
   forall target property w,
     isValid (isPassword (number_of_Z 4)) target property
       (VString (code_units "Aa1!")) w
     = (Resolved false, w)) /\
  (password_spec 12 (code_units "Aa1!aaaa") = false /\
   forall target property w,
     isValid (isPassword (number_of_Z 12)) target property
       (VString (code_units "Aa1!aaaa")) w
     = (Resolved true, w)).
Proof.
  split; [|split].
  - intros minimum target property value w. reflexivity.
  - split; [by vm_compute|]. intros target property w. by vm_compute.
  - split; [by vm_compute|]. intros target property w. by vm_compute.
Qed.

(** C2. For the schema [{ email: { isValidEmail: isEmail() } }],
    [initialValidation] is [{ email: { isValidEmail: false }, isValid:
    false }]: its [email] has no [isValid] key, while the [email] of every
    report of [validate] has one. The top-level keys are the same, and
    every boolean of [initialValidation] is false. *)
Theorem initialValidation_lacks_property_isValid :
  let schema : list (string * list (string * Rule W)) :=
    [("email", [("isValidEmail", isEmail)])] in
  initialValidation (createValidator schema)
  = {[ "email" := FObject {[ "isValidEmail" := false ]};
       "isValid" := FBoolean false ]} /\
  property_isValid (initialValidation (createValidator schema)) "email"
  = None /\
  forall target w, exists passed,
    validate (createValidator schema) target w
    = (Resolved {[ "email" := FObject {[ "isValidEmail" := passed;
                                         "isValid" := passed ]};
                   "isValid" := FBoolean passed ]}, w) /\
    property_isValid
      {[ "email" := FObject {[ "isValidEmail" := passed;
                               "isValid" := passed ]};
         "isValid" := FBoolean passed ]} "email"
    = Some passed.
Proof.
  intros schema. split; [by vm_compute|]. split; [by vm_compute|].
  intros target w.
  exists (match get target "email" with
          | VString s => test_anchored email_regex s
          | _ => false
          end).
  rewrite validate_eval. simpl. unfold bind, ret. simpl.
  generalize (match get target "email" with
              | VString s => test_anchored email_regex s
              | _ => false
              end).
  intros passed. by destruct passed; vm_compute.
Qed.

(** C7. [isNumberEqualTo(n)] resolves, and it resolves to true exactly when
    the value is a number that is equal ([===]) to [n]. With the schema
    [{ answer: { isValidAnswer: isNumberEqualTo(42) } }], the target
    [{ answer: 42 }] gives a report whose booleans are all true, and the
    target [{ answer: "42" }] gives [isValidAnswer] false. *)
Theorem isNumberEqualTo_number_only :
  (forall expectedValue target property value w, exists passed,
     isValid (isNumberEqualTo expectedValue) target property value w
     = (Resolved passed, w) /\
     (passed = true <->
      exists n, value = VNumber n /\ number_equal expectedValue n = true)) /\
  let schema : list (string * list (string * Rule W)) :=
    [("answer", [("isValidAnswer", isNumberEqualTo (number_of_Z 42))])] in
  (forall w,
     validate (createValidator schema)
       {[ "answer" := VNumber (number_of_Z 42) ]} w
     = (Resolved {[ "answer" := FObject {[ "isValidAnswer" := true;
                                            "isValid" := true ]};
                    "isValid" := FBoolean true ]}, w)) /\
  (forall w, exists report,
     validate (createValidator schema)
       {[ "answer" := VString (code_units "42") ]} w
     = (Resolved report, w) /\
     rule_result report "answer" "isValidAnswer" = Some false).
Proof.
  split.
  - intros expectedValue target property value w. eexists. split; [done|].
    split.
    + destruct value; try done. intros Heq. eauto.
    + by intros (n & -> & Heq).
  - intros schema. split.
    + intros w. by vm_compute.
    + intros w. eexists. split; by vm_compute.
Qed.

(** C8. With the schema [{ email: { isValidEmail: isEmail() } }], the target
    [{ email: "email@domain.com" }] gives a report in which [isValid],
    [email.isValid] and [email.isValidEmail] are true, and the target
    [{ email: "email@domain" }] one in which [isValid] and
    [email.isValidEmail] are false. *)
Theorem isEmail_scenarios :
  let schema : list (string * list (string * Rule W)) :=
    [("email", [("isValidEmail", isEmail)])] in
  (forall w, exists report,
     validate (createValidator schema)
       {[ "email" := VString (code_units "email@domain.com") ]} w
     = (Resolved report, w) /\
     report_isValid report = Some true /\
     property_isValid report "email" = Some true /\
     rule_result report "email" "isValidEmail" = Some true) /\
  (forall w, exists report,
     validate (createValidator schema)
       {[ "email" := VString (code_units "email@domain") ]} w
     = (Resolved report, w) /\
     report_isValid report = Some false /\
     rule_result report "email" "isValidEmail" = Some false).
Proof.
  intros schema. split; intros w; eexists.
  - split; [by vm_compute|]. by vm_compute.
  - split; [by vm_compute|]. by vm_compute.
Qed.

(** C9. [doesMatch(r)] and [doesNotMatch(r)] look at strings only: on a
    value that is not a string both resolve to false, without calling
    [r.test]; on a string, both resolve to false when [r.test] throws, and
    otherwise the first resolves to what [r.test] returned and the second
    to its negation. Neither ever rejects. *)
Theorem pattern_rules_strings_only (regex : RegExp W) target property value w :
  (is_string value = false ->
   isValid (doesMatch regex) target property value w = (Resolved false, w) /\
   isValid (doesNotMatch regex) target property value w = (Resolved false, w))
  /\
  (forall s reason w',
     value = VString s -> test regex s w = (Rejected reason, w') ->
     isValid (doesMatch regex) target property value w = (Resolved false, w') /\
     isValid (doesNotMatch regex) target property value w
     = (Resolved false, w'))
  /\
  (forall s matched w',
     value = VString s -> test regex s w = (Resolved matched, w') ->
     isValid (doesMatch regex) target property value w
     = (Resolved matched, w') /\
     isValid (doesNotMatch regex) target property value w
     = (Resolved (negb matched), w'))
  /\
  (exists passed w',
     isValid (doesMatch regex) target property value w = (Resolved passed, w'))
  /\
  (exists passed w',
     isValid (doesNotMatch regex) target property value w
     = (Resolved passed, w')).
Proof.
  split; [|split; [|split; [|split]]].
  - intros Hnot. by destruct value.
  - intros s reason w' -> Hthrow. simpl. unfold try_catch, bind.
    by rewrite Hthrow.
  - intros s matched w' -> Htest. simpl. unfold try_catch, bind.
    by rewrite Htest.
  - simpl. unfold try_catch.
    destruct value; try (by eexists _, _).
    destruct (test regex s w) as [[matched|reason] w']; by eexists _, _.
  - simpl. unfold try_catch, bind.
    destruct value; try (by eexists _, _).
    destruct (test regex s w) as [[matched|reason] w']; by eexists _, _.
Qed.

(** C10. [isEqualToProperty(other)] resolves to [target[other] === value],
    whatever the two values are. When both the checked property and
    [other] are absent from the target, the value handed to the rule is
    [undefined], so is [target[other]], and the rule passes: with the
    schema [{ confirmation: { matches: isEqualToProperty("password") } }]
    the empty target gives a report whose booleans are all true. *)
Theorem isEqualToProperty_strict otherProperty target property value w :
  isValid (isEqualToProperty otherProperty) target property value w
  = (Resolved (strict_equal (get target otherProperty) value), w) /\
  (target !! property = None -> target !! otherProperty = None ->
   isValid (isEqualToProperty otherProperty) target property
     (get target property) w
   = (Resolved true, w)) /\
  validate
    (createValidator
       [("confirmation", [("matches", isEqualToProperty "password")])])
    ∅ w
  = (Resolved {[ "confirmation" := FObject {[ "matches" := true;
                                              "isValid" := true ]};
                 "isValid" := FBoolean true ]}, w).
Proof.
  split; [done|]. split.
  - intros Hproperty Hother. simpl. unfold ret, get.
    by rewrite Hproperty, Hother.
  - by vm_compute.
Qed.

End Properties.

(** * The theorems at work *)

Ltac entries_distinct :=
  repeat first
    [ apply NoDup_nil_2
    | apply NoDup_cons_2; [by apply (bool_decide_unpack _)|] ].

Lemma sign_up_wf : schema_wf Examples.sign_up.
Proof.
  split; [unfold keys; simpl; entries_distinct|].
  repeat (constructor; [unfold keys; simpl; entries_distinct|]).
  constructor.
Qed.

Lemma sign_up_deterministic property ruleName rule :
  rule_of Examples.sign_up property ruleName rule -> deterministic rule.
Proof.
  intros (rules & Hin & Hrule). simpl in Hin.
  destruct Hin as [[= <- <-]|[[= <- <-]|[[= <- <-]|[]]]]; simpl in Hrule;
    try done; destruct Hrule as [[= <- <-]|[]]; by eexists (fun _ _ _ => _).
Qed.

Lemma sign_up_resolves target property ruleName rule :
  rule_of Examples.sign_up property ruleName rule ->
  resolves rule target property (get target property).
Proof.
  intros Hrule w. destruct (sign_up_deterministic _ _ _ Hrule) as [verdict Hv].
  destruct Hrule as (rules & Hin & Hrule). simpl in Hin.
  destruct Hin as [[= <- <-]|[[= <- <-]|[[= <- <-]|[]]]]; simpl in Hrule;
    try done; destruct Hrule as [[= <- <-]|[]]; by eexists _, _.
Qed.

(** The aggregation equations on the sign-up schema, for a target without
    an email. *)
Lemma validate_aggregates_witness :
  aggregates Examples.sign_up Examples.sign_up_report /\
  (forall property, In (property, []) Examples.sign_up ->
     property_isValid Examples.sign_up_report property = Some true).
Proof.
  apply (validate_aggregates Examples.sign_up Examples.answer_only
           tt Examples.sign_up_report tt).
  - exact sign_up_wf.
  - simpl. intros [H|[H|[H|[]]]]; discriminate H.
  - vm_compute. reflexivity.
Defined.

(** C3, as stated, fails on a schema with a property named [isValid]: the
    report's own aggregate takes the place of the property's object, and
    the property has no [isValid] of its own left. *)
Lemma validate_aggregates_counterexample :
  schema_wf Examples.reserved /\
  validate (createValidator Examples.reserved) {[ "isValid" := VNumber (number_of_Z 1) ]} tt
  = (Resolved {[ "isValid" := FBoolean true ]}, tt) /\
  property_isValid {[ "isValid" := FBoolean true ]} "isValid" = None /\
  ~ aggregates Examples.reserved {[ "isValid" := FBoolean true ]}.
Proof.
  split; [|split; [|split]].
  - split; [unfold keys; simpl; entries_distinct|].
    repeat (constructor; [unfold keys; simpl; entries_distinct|]).
    constructor.
  - vm_compute. reflexivity.
  - vm_compute. reflexivity.
  - intros [_ Hproperties].
    destruct (Hproperties "isValid" [("isNumeric", isNumber)]) as [[b Hb] _].
    + by left.
    + vm_compute in Hb. discriminate Hb.
Qed.

(** The service goes down under [login] and the next rule asks it: the
    pass rejects there, although the asking rule resolves when the service
    is up, and the service is up again afterwards. *)
Lemma validate_propagates_rejection_witness :
  validate (createValidator Outage.schema) ∅ true
  = (Rejected (VString (code_units "unreachable")), true).
Proof.
  apply (proj2 (validate_propagates_rejection Outage.schema ∅ true
                  (VString (code_units "unreachable")) true)).
  exists [("email", [("isValidEmail", isEmail)])], "login",
         [("isPresent", Outage.goes_down)], "isFree", Outage.asks_service,
         [("isNumeric", isNumber)], [("nickname", [])].
  eexists _, true, _, false.
  split; [reflexivity|]. split; [vm_compute; reflexivity|].
  split; [vm_compute; reflexivity|]. vm_compute. reflexivity.
Defined.

(** The sign-up schema on a target without an email. *)
Lemma validate_absent_property_witness :
  exists report w',
    validate (createValidator Examples.sign_up) Examples.answer_only tt
    = (Resolved report, w') /\
    forall property rules, In (property, rules) Examples.sign_up ->
      exists o,
        report !! property = Some (FObject o) /\
        forall ruleName rule, In (ruleName, rule) rules ->
          exists passed verdict,
            o !! ruleName = Some passed /\
            (ruleName <> "isValid" -> passed = verdict) /\
            (exists w0 w1,
               isValid rule Examples.answer_only property
                 (get Examples.answer_only property) w0
               = (Resolved verdict, w1)) /\
            (Examples.answer_only !! property = None ->
             exists w0 w1,
               isValid rule Examples.answer_only property VUndefined w0
               = (Resolved verdict, w1)).
Proof.
  apply (validate_absent_property Examples.sign_up Examples.answer_only).
  - exact sign_up_wf.
  - simpl. intros [H|[H|[H|[]]]]; discriminate H.
  - intros property ruleName rule. apply sign_up_resolves.
Defined.

(** C5, as stated, fails on a schema with a property named [isValid]: the
    rules resolve and so does [validate], but the report holds the
    aggregate under that name, and no boolean for the property's rule. *)
Lemma validate_absent_property_counterexample :
  (forall property ruleName rule,
     rule_of Examples.reserved property ruleName rule ->
     resolves rule ∅ property (get ∅ property)) /\
  validate (createValidator Examples.reserved) ∅ tt
  = (Resolved {[ "isValid" := FBoolean false ]}, tt) /\
  property_report {[ "isValid" := FBoolean false ]} "isValid" = None /\
  rule_result {[ "isValid" := FBoolean false ]} "isValid" "isNumeric" = None.
Proof.
  split; [|split; [|split]].
  - intros property ruleName rule (rules & Hin & Hrule) w. simpl in Hin.
    destruct Hin as [[= <- <-]|[]]. destruct Hrule as [[= <- <-]|[]].
    by eexists _, _.
  - vm_compute. reflexivity.
  - vm_compute. reflexivity.
  - vm_compute. reflexivity.
Qed.

(** The rules of the sign-up schema are deterministic. *)
Lemma validate_deterministic_witness :
  exists outcome, forall w,
    validate (createValidator Examples.sign_up) Examples.answer_only w
    = (outcome, w).
Proof.
  apply (validate_deterministic Examples.sign_up Examples.answer_only).
  exact sign_up_deterministic.
Defined.

(** A schema with an inherited property: its report has a key that its
    template lacks. *)
Lemma inherited_property_in_report_only :
  dom (initialValidation (createValidatorOf Inherited.schema))
  = {["isValid"; "email"]} /\
  exists report,
    validate (createValidatorOf Inherited.schema) ∅ tt = (Resolved report, tt) /\
    dom report = {["isValid"; "email"; "inherited"]}.
Proof.
  split; [by vm_compute|]. eexists. split; by vm_compute.
Qed.

(** The template and a report of the sign-up schema, whose properties are
    all its own. *)
Lemma initialValidation_shape_witness :
  (dom (initialValidation (createValidatorOf (own_only Examples.sign_up)))
   = {["isValid"]} ∪ list_to_set (keys Examples.sign_up) /\
   dom Examples.sign_up_report
   = dom (initialValidation (createValidatorOf (own_only Examples.sign_up)))
     ∪ list_to_set (keys Examples.sign_up) /\
   report_isValid
     (initialValidation (createValidatorOf (own_only Examples.sign_up)))
   = Some false) /\
  (Examples.sign_up = Examples.sign_up ->
   dom (initialValidation (createValidatorOf (own_only Examples.sign_up)))
   = dom Examples.sign_up_report /\
   forall property rules, In (property, rules) Examples.sign_up ->
     property <> "isValid" ->
     exists template reported,
       property_report
         (initialValidation (createValidatorOf (own_only Examples.sign_up)))
         property
       = Some template /\
       property_report Examples.sign_up_report property = Some reported /\
       dom template = list_to_set (keys rules) /\
       dom reported = list_to_set (keys rules) ∪ {["isValid"]} /\
       forall ruleName b, template !! ruleName = Some b -> b = false).
Proof.
  apply (initialValidation_shape (own_only Examples.sign_up)
           Examples.answer_only tt Examples.sign_up_report tt).
  - exact sign_up_wf.
  - vm_compute. reflexivity.
Defined.

(** * More of the engine and of the catalogue *)

Section Coverage.

Context {W : Type}.

Implicit Types (schema : list (string * list (string * Rule W))).
Implicit Types (rules : list (string * Rule W)).
Implicit Types (target : gmap string Value).
Implicit Types (verdict : string -> string -> bool).
Implicit Types (w : W).

(** ** A pass whose rules all resolve *)

Lemma eval_rules_settles target property value rules verdict :
  (forall ruleName rule, In (ruleName, rule) rules ->
     forall w, exists w',
       isValid rule target property value w
       = (Resolved (verdict property ruleName), w')) ->
  forall w, exists w',
    eval_rules target property value rules w
    = (Resolved (map (fun rule => (rule.1, verdict property rule.1)) rules),
       w').
Proof.
  induction rules as [|[ruleName rule] rest IH]; intros Hrules w; simpl.
  - unfold ret. eauto.
  - unfold bind.
    destruct (Hrules ruleName rule (or_introl eq_refl) w) as [w1 ->].
    destruct (IH (fun r rl Hin => Hrules r rl (or_intror Hin)) w1) as [w2 ->].
    unfold ret. eauto.
Qed.

Lemma eval_schema_settles target schema verdict :
  settles_to schema target verdict ->
  forall w, exists w',
    eval_schema target schema w = (Resolved (verdict_table verdict schema), w').
Proof.
  induction schema as [|[property rules] rest IH]; intros Hsettles w; simpl.
  - unfold ret. eauto.
  - unfold bind.
    destruct (eval_rules_settles target property (get target property)
                rules verdict) with (w := w) as [w1 ->].
    { intros r rl Hin. apply (Hsettles property r rl). exists rules.
      split; [by left|done]. }
    destruct IH with (w := w1) as [w2 ->].
    { intros p r rl (rs & Hin & Hin'). apply (Hsettles p r rl). exists rs.
      split; [by right|done]. }
    unfold ret. eauto.
Qed.

Lemma all_passed_verdict_table verdict schema :
  forallb (fun entry => all_passed entry.2) (verdict_table verdict schema)
  = all_verdicts verdict schema.
Proof.
  unfold verdict_table, all_verdicts, all_passed.
  induction schema as [|[property rules] rest IH]; simpl; [done|].
  rewrite IH. f_equal. clear IH.
  induction rules as [|[ruleName rule] others IH]; simpl; [done|].
  by rewrite IH.
Qed.



(** ** Properties of the target that the schema does not mention *)

Lemma eval_rules_ignores target target' property value rules :
  (forall ruleName rule, In (ruleName, rule) rules -> ignores_target rule) ->
  forall w,
    eval_rules target property value rules w
    = eval_rules target' property value rules w.
Proof.
  induction rules as [|[ruleName rule] rest IH]; intros Hrules w; [done|].
  simpl. unfold bind.
  rewrite (Hrules ruleName rule (or_introl eq_refl) target target').
  destruct (isValid rule target' property value w) as [[passed|reason] w1];
    [|done].
  by rewrite (IH (fun r rl Hin => Hrules r rl (or_intror Hin))).
Qed.

Lemma eval_schema_ignores target target' schema :
  (forall property ruleName rule,
     rule_of schema property ruleName rule -> ignores_target rule) ->
  (forall property, In property (keys schema) ->
     get target property = get target' property) ->
  forall w, eval_schema target schema w = eval_schema target' schema w.
Proof.
  induction schema as [|[property rules] rest IH]; intros Hrules Hsame w;
    [done|].
  simpl. unfold bind.
  rewrite <- (Hsame property) by (by left).
  rewrite (eval_rules_ignores target target').
  2:{ intros r rl Hin. apply (Hrules property r rl). exists rules.
      split; [by left|done]. }
  destruct (eval_rules target' property (get target property) rules w)
    as [[outcomes|reason] w1]; [|done].
  rewrite IH; [done| |].
  - intros p r rl (rs & Hin & Hin'). apply (Hrules p r rl). exists rs.
    split; [by right|done].
  - intros p Hin. apply Hsame. by right.
Qed.

(** X4. [validate] reads the target only under the names of the schema's
    properties and through the rules: when no rule of the schema looks at
    the target, two targets that agree under every property of the schema
    get the same outcome, whatever else they hold. *)
Theorem validate_ignores_other_properties schema target target' :
  (forall property ruleName rule,
     rule_of schema property ruleName rule -> ignores_target rule) ->
  (forall property, In property (keys schema) ->
     get target property = get target' property) ->
  forall w,
    validate (createValidator schema) target w
    = validate (createValidator schema) target' w.
Proof.
  intros Hrules Hsame w. rewrite !validate_eval.
  by rewrite (eval_schema_ignores target target' schema Hrules Hsame).
Qed.

(** ** The order of the properties *)

Lemma seeded_absent schema name :
  ~ In name (keys schema) -> seeded schema !! name = None.
Proof.
  intros Hnot. unfold seeded. rewrite fromEntries_insert_all.
  rewrite insert_all_other; [done|].
  by rewrite (keys_seed (fun rules => FObject (<["isValid" := false]>
    (fromEntries (map (fun '(ruleName, _) => (ruleName, false)) rules))))).
Qed.

Lemma keys_verdict_table verdict schema :
  keys (verdict_table verdict schema) = keys schema.
Proof.
  unfold keys, verdict_table. rewrite map_map. by apply map_ext.
Qed.

Lemma all_verdicts_permutation verdict schema schema' :
  Permutation schema schema' ->
  all_verdicts verdict schema = all_verdicts verdict schema'.
Proof.
  unfold all_verdicts.
  induction 1 as [|entry l l' _ IH|a b l|l l' l'' _ IH _ IH']; simpl.
  - done.
  - by rewrite IH.
  - by rewrite !andb_assoc, (andb_comm (forallb _ b.2)).
  - by rewrite IH.
Qed.

(** What the rebuilt report holds under any name but [isValid], read off
    the schema. *)
Lemma record_verdicts_lookup verdict schema name :
  NoDup (keys schema) ->
  record_schema (verdict_table verdict schema) (seeded schema) !! name
  = match list_find (fun entry => entry.1 = name) schema with
    | Some (_, entry) =>
        Some (FObject
                (<["isValid" :=
                     all_passed (map (fun rule => (rule.1, verdict name rule.1))
                                     entry.2)]>
                   (insert_all
                      (map (fun rule => (rule.1, verdict name rule.1)) entry.2)
                      (<["isValid" := false]>
                         (fromEntries
                            (map (fun '(ruleName, _) => (ruleName, false))
                                 entry.2))))))
    | None => None
    end.
Proof.
  intros Hnd.
  destruct (list_find (fun entry => entry.1 = name) schema)
    as [[i [property rules]]|] eqn:Hfind.
  - apply list_find_Some in Hfind as (Hlookup & Hname & _).
    simpl in Hname. subst property.
    assert (In (name, rules) schema) as Hin.
    { apply list_elem_of_In. by eapply list_elem_of_lookup_2. }
    rewrite (record_schema_same _ _ name
               (map (fun rule => (rule.1, verdict name rule.1)) rules)).
    + by rewrite (seeded_property _ _ _ Hnd Hin).
    + by rewrite keys_verdict_table.
    + unfold verdict_table. apply in_map_iff. by exists (name, rules).
  - rewrite list_find_None in Hfind.
    assert (~ In name (keys schema)) as Hnot.
    { intros ([property rules] & Hname & Hin)%in_map_iff.
      rewrite Forall_forall in Hfind.
      apply (Hfind (property, rules)); [by apply list_elem_of_In|done]. }
    rewrite record_schema_other by (by rewrite keys_verdict_table).
    by apply seeded_absent.
Qed.

Lemma entries_functional {V : Type} (entries : list (string * V)) k v v' :
  NoDup (keys entries) -> In (k, v) entries -> In (k, v') entries -> v = v'.
Proof.
  induction entries as [|[k0 v0] rest IH]; intros Hnd Hin Hin'; [done|].
  unfold keys in Hnd. simpl in Hnd. apply NoDup_cons in Hnd as [Hfresh Hnd].
  rewrite list_elem_of_In in Hfresh.
  destruct Hin as [Heq|Hin], Hin' as [Heq'|Hin'].
  - congruence.
  - injection Heq as -> ->. exfalso. apply Hfresh.
    change (In k (keys rest)). by eapply keys_in.
  - injection Heq' as -> ->. exfalso. apply Hfresh.
    change (In k (keys rest)). by eapply keys_in.
  - by apply IH.
Qed.

Lemma find_entry_permutation schema schema' name :
  NoDup (keys schema) -> Permutation schema schema' ->
  snd <$> list_find (fun entry => entry.1 = name) schema
  = snd <$> list_find (fun entry => entry.1 = name) schema'.
Proof.
  intros Hnd Hperm.
  assert (NoDup (keys schema')) as Hnd'.
  { unfold keys in *. by rewrite <- Hperm. }
  assert (forall l : list (string * list (string * Rule W)),
            NoDup (keys l) ->
            forall entry, In entry l -> entry.1 = name ->
            snd <$> list_find (fun entry => entry.1 = name) l = Some entry)
    as Hfound.
  { intros l Hl entry Hin Hname.
    destruct (list_find (fun entry => entry.1 = name) l)
      as [[i found]|] eqn:Hfind.
    - apply list_find_Some in Hfind as (Hlookup & Hfname & _). simpl.
      f_equal. apply list_elem_of_lookup_2, list_elem_of_In in Hlookup.
      destruct found as [p rs], entry as [q qs]. simpl in *. subst p q.
      f_equal. by apply (entries_functional l name).
    - rewrite list_find_None, Forall_forall in Hfind.
      exfalso. apply (Hfind entry); [by apply list_elem_of_In|done]. }
  destruct (list_find (fun entry => entry.1 = name) schema)
    as [[i found]|] eqn:Hfind.
  - apply list_find_Some in Hfind as (Hlookup & Hname & _). simpl.
    symmetry. apply Hfound; [done| |done].
    apply (Permutation_in _ Hperm).
    apply list_elem_of_In. by eapply list_elem_of_lookup_2.
  - simpl. rewrite list_find_None, Forall_forall in Hfind.
    destruct (list_find (fun entry => entry.1 = name) schema')
      as [[i found]|] eqn:Hfind'; [|done].
    apply list_find_Some in Hfind' as (Hlookup & Hname & _).
    exfalso. apply (Hfind found); [|done].
    apply list_elem_of_In. apply (Permutation_in _ (Permutation_sym Hperm)).
    apply list_elem_of_In. by eapply list_elem_of_lookup_2.
Qed.

(** X5. The order in which a schema lists its properties does not change
    what the report holds: when the rules resolve on the target, to
    booleans that do not depend on the state of the world, a schema and
    any reordering of its properties give reports that are equal field by
    field, the same keys with the same booleans. (A report is a map here:
    the order in which it lists its keys, which follows the schema's, is
    not part of it.) *)
Theorem validate_order_irrelevant schema schema' target verdict :
  schema_wf schema ->
  Permutation schema schema' ->
  settles_to schema target verdict ->
  forall w, exists report w1 w2,
    validate (createValidator schema) target w = (Resolved report, w1) /\
    validate (createValidator schema') target w = (Resolved report, w2).
Proof.
  intros [Hnd _] Hperm Hsettles w.
  assert (NoDup (keys schema')) as Hnd'.
  { unfold keys in *. by rewrite <- Hperm. }
  assert (settles_to schema' target verdict) as Hsettles'.
  { intros p r rl (rs & Hin & Hin'). apply (Hsettles p r rl). exists rs.
    split; [|done]. apply (Permutation_in _ (Permutation_sym Hperm) Hin). }
  rewrite !validate_eval.
  destruct (eval_schema_settles target schema verdict Hsettles w) as [w1 ->].
  destruct (eval_schema_settles target schema' verdict Hsettles' w) as [w2 ->].
  eexists _, w1, w2. split; [done|]. do 2 f_equal.
  rewrite !all_passed_verdict_table.
  rewrite <- (all_verdicts_permutation verdict schema schema' Hperm).
  apply map_eq. intros name.
  destruct (decide (name = "isValid")) as [->|Hname].
  - by rewrite !lookup_insert_eq.
  - rewrite !lookup_insert_ne by done.
    rewrite !record_verdicts_lookup by done.
    pose proof (find_entry_permutation schema schema' name Hnd Hperm) as Hfind.
    destruct (list_find (fun entry => entry.1 = name) schema) as [[i e]|],
             (list_find (fun entry => entry.1 = name) schema') as [[i' e']|];
      simpl in Hfind; try done.
    by injection Hfind as ->.
Qed.

(** ** The calls that a pass makes *)





(** ** Strict equality *)

Lemma SFcompare_antisym (a b : number) :
  SFcompare a b = CompOpp <$> SFcompare b a.
Proof.
  destruct a as [sa|sa| |sa ma ea], b as [sb|sb| |sb mb eb]; simpl;
    try done; try (by destruct sa); try (by destruct sb);
    try (by destruct sa, sb).
  assert (forall p q, Pos.compare_cont Eq p q
                      = CompOpp (Pos.compare_cont Eq q p)) as Hflip.
  { intros p q. symmetry. apply (Pos.compare_cont_antisym q p Eq). }
  destruct sa, sb; simpl; try done;
    rewrite (Z.compare_antisym eb ea);
    destruct (eb ?= ea)%Z; simpl; try done;
    by rewrite (Hflip ma mb).
Qed.

Lemma number_equal_sym (a b : number) : number_equal a b = number_equal b a.
Proof.
  unfold number_equal, SFeqb. rewrite (SFcompare_antisym a b).
  by destruct (SFcompare b a) as [[]|].
Qed.

Lemma number_equal_refl (a : number) : number_equal a a = negb (is_nan a).
Proof.
  unfold number_equal, SFeqb.
  destruct a as [s|s| |s m e]; simpl; try done; try (by destruct s).
  destruct s; by rewrite Z.compare_refl, Pos.compare_cont_refl.
Qed.

Lemma strict_equal_sym (a b : Value) : strict_equal a b = strict_equal b a.
Proof.
  destruct a, b; simpl; try done.
  - by destruct b, b0.
  - apply number_equal_sym.
  - apply Z.eqb_sym.
  - unfold jsstring_eqb. apply bool_decide_ext. naive_solver.
  - apply Pos.eqb_sym.
  - apply Pos.eqb_sym.
Qed.

Lemma strict_equal_refl (a : Value) :
  strict_equal a a = negb (is_nan_value a).
Proof.
  destruct a; simpl; try done.
  - by destruct b.
  - apply number_equal_refl.
  - apply Z.eqb_refl.
  - unfold jsstring_eqb. by apply bool_decide_eq_true.
  - apply Pos.eqb_refl.
  - apply Pos.eqb_refl.
Qed.

Lemma strict_equal_nan (a b : Value) :
  is_nan_value b = true -> strict_equal a b = false.
Proof.
  destruct b as [| | |n| | | |]; try done. destruct n; try done. intros _.
  destruct a as [| | |m| | | |]; try done.
  simpl. unfold number_equal, SFeqb. by destruct m.
Qed.

(** X7. Comparing properties is symmetric and nearly reflexive: checking
    the value of [b] against property [a] resolves as checking the value
    of [a] against property [b], and checking a property against itself
    passes unless its value is NaN. [isNotEqualToProperty] resolves to the
    opposite boolean, so exactly one of the two rules passes on any
    value. *)
Theorem property_comparison_symmetric (a b : string) target property property'
    value w :
  isValid (isEqualToProperty a) target property (get target b) w
  = isValid (isEqualToProperty b) target property' (get target a) w /\
  isValid (isEqualToProperty a) target property (get target a) w
  = (Resolved (negb (is_nan_value (get target a))), w) /\
  exists equal,
    isValid (isEqualToProperty a) target property value w
    = (Resolved equal, w) /\
    isValid (isNotEqualToProperty a) target property value w
    = (Resolved (negb equal), w).
Proof.
  split; [|split].
  - simpl. unfold ret. by rewrite strict_equal_sym.
  - simpl. unfold ret. by rewrite strict_equal_refl.
  - by eexists.
Qed.

(** ** Enumerations *)

Lemma every_not_some (enumeration : list Value) value :
  forallb (fun enumerationValue => negb (strict_equal enumerationValue value))
          enumeration
  = negb (existsb (fun enumerationValue =>
                     strict_equal enumerationValue value) enumeration).
Proof.
  induction enumeration as [|e rest IH]; simpl; [done|].
  by rewrite IH, negb_orb.
Qed.

(** X8. [isNotOneOf] resolves to the opposite of [isOneOf] on every
    enumeration and value. [isOneOf] passes exactly when some element of
    the enumeration is strictly equal to the value; so it fails on the
    empty enumeration, and it fails on NaN even when the enumeration lists
    NaN. *)
Theorem isOneOf_isNotOneOf (enumeration : list Value) target property value w :
  exists listed,
    isValid (isOneOf enumeration) target property value w
    = (Resolved listed, w) /\
    isValid (isNotOneOf enumeration) target property value w
    = (Resolved (negb listed), w) /\
    (listed = true <->
     exists enumerationValue,
       In enumerationValue enumeration /\
       strict_equal enumerationValue value = true) /\
    (enumeration = [] -> listed = false) /\
    (is_nan_value value = true -> listed = false).
Proof.
  eexists. split; [done|]. split; [|split; [|split]].
  - simpl. unfold ret. by rewrite every_not_some.
  - apply existsb_exists.
  - by intros ->.
  - intros Hnan. apply not_true_is_false.
    intros (e & _ & Heq)%existsb_exists.
    by rewrite (strict_equal_nan e value Hnan) in Heq.
Qed.

(** ** Comparisons of numbers *)

Lemma number_order_cases (expected n : number) :
  if is_nan expected || is_nan n
  then number_equal expected n = false /\
       SFltb expected n = false /\ SFltb n expected = false
  else (number_equal expected n = true /\
        SFltb expected n = false /\ SFltb n expected = false) \/
       (number_equal expected n = false /\
        SFltb expected n = true /\ SFltb n expected = false) \/
       (number_equal expected n = false /\
        SFltb expected n = false /\ SFltb n expected = true).
Proof.
  unfold number_equal, SFeqb, SFltb.
  rewrite (SFcompare_antisym n expected).
  destruct (is_nan expected || is_nan n) eqn:Hnan.
  - apply orb_true_iff in Hnan as [Hnan|Hnan].
    + by destruct expected.
    + destruct n; try done. by destruct expected.
  - apply orb_false_iff in Hnan as [He Hn].
    destruct (SFcompare expected n) as [[]|] eqn:Hcmp; simpl; auto.
    exfalso. destruct expected as [s|s| |s m e], n as [t|t| |t k f];
      simpl in *; try done; by try destruct s.
Qed.

(** X9. On a number and an expected number neither of which is NaN, exactly
    one of [isNumberEqualTo], [isNumberGreaterThan] and [isNumberLowerThan]
    passes; when either is NaN none of the three does. [isNumberNotEqualTo]
    resolves to the opposite of [isNumberEqualTo] on a number. On a value
    that is not a number all four rules fail, [isNumberNotEqualTo]
    included. *)
Theorem number_rules_trichotomy (expected : number) target property w :
  (forall n, exists equal greater lower,
     isValid (isNumberEqualTo expected) target property (VNumber n) w
     = (Resolved equal, w) /\
     isValid (isNumberNotEqualTo expected) target property (VNumber n) w
     = (Resolved (negb equal), w) /\
     isValid (isNumberGreaterThan expected) target property (VNumber n) w
     = (Resolved greater, w) /\
     isValid (isNumberLowerThan expected) target property (VNumber n) w
     = (Resolved lower, w) /\
     if is_nan expected || is_nan n
     then equal = false /\ greater = false /\ lower = false
     else (equal = true /\ greater = false /\ lower = false) \/
          (equal = false /\ greater = true /\ lower = false) \/
          (equal = false /\ greater = false /\ lower = true)) /\
  (forall value, is_number value = false ->
     isValid (isNumberEqualTo expected) target property value w
     = (Resolved false, w) /\
     isValid (isNumberNotEqualTo expected) target property value w
     = (Resolved false, w) /\
     isValid (isNumberGreaterThan expected) target property value w
     = (Resolved false, w) /\
     isValid (isNumberLowerThan expected) target property value w
     = (Resolved false, w)).
Proof.
  split.
  - intros n. eexists _, _, _. do 4 (split; [done|]).
    apply number_order_cases.
  - intros value Hnot. by destruct value.
Qed.

(** ** What the email pattern accepts *)

(** A non-empty match of [r*] ends with a match of [r]. *)
Lemma star_matches_snoc a s :
  matches (Star a) s ->
  s = [] \/
  exists s1 s2, s = s1 ++ s2 /\ matches (Star a) s1 /\ matches a s2.
Proof.
  intros Hm. remember (Star a) as r eqn:Hr.
  induction Hm as [| | | | | |b s1 s2 Hb _ Hstar IH|]; try discriminate.
  - by left.
  - injection Hr as ->. right. destruct (IH eq_refl) as [->|(t1 & t2 & -> & Ht1 & Ht2)].
    + exists [], s1. rewrite app_nil_r. split; [done|]. split; [constructor|done].
    + exists (s1 ++ t1), t2. rewrite app_assoc. split; [done|].
      split; [by constructor|done].
Qed.

Lemma plus_matches_last a s :
  matches (Plus a) s -> exists s1 s2, s = s1 ++ s2 /\ matches a s2.
Proof.
  unfold Plus. intros (s1 & s2 & -> & Ha & Hstar)%seq_matches.
  destruct (star_matches_snoc _ _ Hstar) as [->|(t1 & t2 & -> & _ & Ht2)].
  - exists [], s1. by rewrite app_nil_r.
  - exists (s1 ++ t1), t2. by rewrite app_assoc.
Qed.

Lemma word_class c :
  class_mem false [(0x41, 0x5a); (0x61, 0x7a); (0x30, 0x39); (0x5f, 0x5f)]%N c
  = is_word_char c.
Proof.
  unfold class_mem, in_ranges, is_word_char, is_uppercase, is_lowercase,
    is_digit, code_in. simpl.
  by rewrite orb_false_r, !orb_assoc.
Qed.

Lemma atom_matches s :
  matches atom s <-> s <> [] /\ forallb is_atom_char s = true.
Proof.
  change atom with (AtLeast 1 (Class true atom_excluded)).
  rewrite atleast_class_matches.
  change (class_mem true atom_excluded) with is_atom_char.
  split; intros [Hlen Hall]; (split; [|done]).
  - intros ->. simpl in Hlen. lia.
  - destruct s; [done|]. simpl. lia.
Qed.

Lemma top_level_domain_matches s :
  matches (Seq (Char 0x2e) (AtLeast 2 WordChar)) s <->
  exists tld,
    s = 0x2e%N :: tld /\ (2 <= length tld)%nat /\
    forallb is_word_char tld = true.
Proof.
  rewrite seq_matches. unfold Char, WordChar. split.
  - intros (s1 & tld & -> & (c & -> & Hc)%class_matches
            & [Hlen Hall]%atleast_class_matches).
    rewrite range_class in Hc. unfold code_in in Hc.
    apply andb_true_iff in Hc as [Hlo Hhi].
    apply N.leb_le in Hlo, Hhi. assert (c = 0x2e%N) as -> by lia.
    exists tld. rewrite (forallb_eq _ _ tld word_class) in Hall. done.
  - intros (tld & -> & Hlen & Hall). exists [0x2e%N], tld.
    split; [done|]. split; [by constructor|].
    apply atleast_class_matches.
    by rewrite (forallb_eq _ _ tld word_class).
Qed.

(** X10. Whatever [isEmail] accepts is a string made of a part that holds
    an at sign, then a dot, then a last label of at least two word
    characters (letters, digits, underscore) that ends the string. So it
    refuses every value that is not a string, the empty string, and any
    address whose domain has no dot, or a last label of one character. *)
Theorem isEmail_requires target property value w w' :
  isValid isEmail target property value w = (Resolved true, w') ->
  exists before tld,
    value = VString (before ++ 0x2e%N :: tld) /\
    In 0x40%N before /\
    (2 <= length tld)%nat /\
    forallb is_word_char tld = true.
Proof.
  simpl. unfold ret. intros [= Hpassed _].
  destruct value as [| | | | |s| |]; try done.
  apply test_anchored_matches in Hpassed. unfold email_regex in Hpassed.
  apply seq_matches in Hpassed as (local & s1 & -> & _ & Hrest).
  apply seq_matches in Hrest as (locals & s2 & -> & _ & Hrest).
  apply seq_matches in Hrest as (at_sign & s3 & -> & Hat & Hrest).
  apply seq_matches in Hrest as (domain & s4 & -> & _ & Hrest).
  apply seq_matches in Hrest as (domains & s5 & -> & _ & Hlast).
  apply class_matches in Hat as (c & -> & Hc).
  rewrite range_class in Hc. unfold code_in in Hc.
  apply andb_true_iff in Hc as [Hlo Hhi]. apply N.leb_le in Hlo, Hhi.
  assert (c = 0x40%N) as -> by lia.
  apply plus_matches_last in Hlast as (labels & last & -> & Hlabel).
  apply top_level_domain_matches in Hlabel as (tld & -> & Hlen & Hword).
  exists (local ++ locals ++ [0x40%N] ++ domain ++ domains ++ labels), tld.
  split; [|split; [|done]].
  - f_equal. by rewrite <- !app_assoc.
  - apply in_or_app. right. apply in_or_app. right. by left.
Qed.

(** X11. [isEmail] accepts every string of the form [local@domain.tld]
    where [local] and [domain] are non-empty and made of code units that
    an atom allows (no control, space, special or code unit from [\x7f] to
    [\xff]) and [tld] has at least two word characters. *)
Theorem isEmail_accepts_plain target property w (local domain tld : jsstring) :
  local <> [] -> forallb is_atom_char local = true ->
  domain <> [] -> forallb is_atom_char domain = true ->
  (2 <= length tld)%nat -> forallb is_word_char tld = true ->
  isValid isEmail target property
    (VString (local ++ 0x40%N :: domain ++ 0x2e%N :: tld)) w
  = (Resolved true, w).
Proof.
  intros Hlocal Hlocal' Hdomain Hdomain' Hlen Hword.
  simpl. unfold ret. do 2 f_equal.
  apply test_anchored_matches. unfold email_regex.
  replace (local ++ 0x40%N :: domain ++ 0x2e%N :: tld)
    with (local ++ [] ++ [0x40%N] ++ domain ++ [] ++ (0x2e%N :: tld) ++ [])
    by (simpl; by rewrite app_nil_r).
  constructor; [apply m_alt_l; by apply atom_matches|].
  constructor; [constructor|].
  constructor; [by constructor|].
  constructor; [apply m_alt_l; by apply atom_matches|].
  constructor; [constructor|].
  unfold Plus. constructor; [|constructor].
  apply top_level_domain_matches. by exists tld.
Qed.

(** ** The report, in closed form *)



(** ** Integers *)

Lemma number_equal_integer (expected n : number) :
  number_equal expected n = true ->
  number_is_integer n = number_is_integer expected.
Proof.
  unfold number_equal, SFeqb.
  destruct expected as [s|s| |s m e], n as [t|t| |t k f]; simpl; try done;
    try (by destruct s); try (by destruct s, t).
  destruct s, t; try done.
  - destruct (e ?= f)%Z eqn:He; try done.
    apply Z.compare_eq in He as ->.
    destruct (Pos.compare_cont Eq m k) eqn:Hm; try done.
    by apply Pos.compare_eq in Hm as ->.
  - destruct (e ?= f)%Z eqn:He; try done.
    apply Z.compare_eq in He as ->.
    destruct (Pos.compare_cont Eq m k) eqn:Hm; try done.
    by apply Pos.compare_eq in Hm as ->.
Qed.

(** X13. Each integer rule passes exactly when [isInteger] and the number
    rule of the same comparison both pass; so [isIntegerNotEqualTo] fails
    on a number with a fractional part, different though it is. And
    [isIntegerEqualTo(expected)] passes exactly when [isNumberEqualTo]
    does and [expected] is itself an integer: with an expected value that
    has a fractional part, or is NaN or infinite, it never passes. *)
Theorem integer_rules_refine_number_rules (expected : number) target property
    value w :
  exists integer equal different greater lower,
    isValid isInteger target property value w = (Resolved integer, w) /\
    isValid (isNumberEqualTo expected) target property value w
    = (Resolved equal, w) /\
    isValid (isNumberNotEqualTo expected) target property value w
    = (Resolved different, w) /\
    isValid (isNumberGreaterThan expected) target property value w
    = (Resolved greater, w) /\
    isValid (isNumberLowerThan expected) target property value w
    = (Resolved lower, w) /\
    isValid (isIntegerEqualTo expected) target property value w
    = (Resolved (integer && equal), w) /\
    isValid (isIntegerNotEqualTo expected) target property value w
    = (Resolved (integer && different), w) /\
    isValid (isIntegerGreaterThan expected) target property value w
    = (Resolved (integer && greater), w) /\
    isValid (isIntegerLowerThan expected) target property value w
    = (Resolved (integer && lower), w) /\
    integer && equal = equal && number_is_integer expected.
Proof.
  eexists _, _, _, _, _. do 5 (split; [done|]).
  destruct value as [| | |n| | | |]; try done.
  do 4 (split; [done|]).
  destruct (number_equal expected n) eqn:Hequal.
  - by rewrite (number_equal_integer _ _ Hequal), andb_true_r.
  - by rewrite andb_false_r.
Qed.

End Coverage.

(** * The further theorems at work *)

Lemma sign_up_settles :
  settles_to Examples.sign_up Examples.answer_only
    MoreExamples.sign_up_verdict.
Proof.
  intros property ruleName rule (rules & Hin & Hrule) w. simpl in Hin.
  destruct Hin as [[= <- <-]|[[= <- <-]|[[= <- <-]|[]]]]; simpl in Hrule;
    try done; destruct Hrule as [[= <- <-]|[]]; by exists w.
Qed.

Lemma sign_up_ignores_target property ruleName rule :
  rule_of Examples.sign_up property ruleName rule -> ignores_target rule.
Proof.
  intros (rules & Hin & Hrule). simpl in Hin.
  destruct Hin as [[= <- <-]|[[= <- <-]|[[= <- <-]|[]]]]; simpl in Hrule;
    try done; by destruct Hrule as [[= <- <-]|[]].
Qed.


(** A comment in the target changes nothing for the sign-up schema. *)
Lemma validate_ignores_other_properties_witness :
  validate (createValidator Examples.sign_up) Examples.answer_only tt
  = validate (createValidator Examples.sign_up)
      MoreExamples.answer_and_comment tt.
Proof.
  apply (validate_ignores_other_properties Examples.sign_up
           Examples.answer_only MoreExamples.answer_and_comment).
  - exact sign_up_ignores_target.
  - simpl. intros property [<-|[<-|[<-|[]]]]; vm_compute; reflexivity.
Defined.

(** The sign-up schema and its reordering give one report. *)
Lemma validate_order_irrelevant_witness :
  exists report w1 w2,
    validate (createValidator Examples.sign_up) Examples.answer_only tt
    = (Resolved report, w1) /\
    validate (createValidator MoreExamples.sign_up_reordered)
      Examples.answer_only tt
    = (Resolved report, w2).
Proof.
  apply (validate_order_irrelevant Examples.sign_up
           MoreExamples.sign_up_reordered Examples.answer_only
           MoreExamples.sign_up_verdict).
  - exact sign_up_wf.
  - apply (Permutation_cons_append
             [("answer", [("isValidAnswer", isNumberEqualTo (number_of_Z 42))]);
              ("nickname", [])]
             ("email", [("isValidEmail", isEmail)])).
  - exact sign_up_settles.
Defined.

(** The accepted address of the tests has its at sign, its dot and its
    last label. *)
Lemma isEmail_requires_witness :
  exists before tld,
    VString (code_units "email@domain.com")
    = VString (before ++ 0x2e%N :: tld) /\
    In 0x40%N before /\
    (2 <= length tld)%nat /\
    forallb is_word_char tld = true.
Proof.
  apply (isEmail_requires ∅ "email"
           (VString (code_units "email@domain.com")) tt tt).
  vm_compute. reflexivity.
Defined.

(** The accepted address of the tests is of the plain form. *)
Lemma isEmail_accepts_plain_witness :
  isValid isEmail ∅ "email"
    (VString (code_units "email" ++ 0x40%N
                :: code_units "domain" ++ 0x2e%N :: code_units "com")) tt
  = (Resolved true, tt).
Proof.
  apply (isEmail_accepts_plain ∅ "email" tt
           (code_units "email") (code_units "domain") (code_units "com")).
  - discriminate.
  - vm_compute. reflexivity.
  - discriminate.
  - vm_compute. reflexivity.
  - simpl. lia.
  - vm_compute. reflexivity.
Defined.

